(** * Vox AI Studio TTS: credit ledger, WAV container encoder and the
      speech-request pipeline

    A shallow embedding of [server.ts] (the session/credit service) and of
    the logic of [src/App.tsx] (the WAV encoder [createWavUrl], the
    [generateSpeech] pipeline, [handleCancel], the mode selector, the file
    upload and the voice preview), followed by the properties established
    about them.

    Conventions of the embedding.
    - A JavaScript string is the list of its UTF-16 code units ([list N]);
      [lit] turns an ASCII literal of the source into such a list.
    - The value of a [credits] field is a double whose value is an integer
      ([Int z]), one of the two infinities, [NaN], or, in the component,
      [null]. An integer taken from JSON text becomes the double nearest to
      it ([double_of_Z]), and so does the exact difference of two such
      doubles: beyond 2^53 in magnitude results are rounded. Doubles that
      are not integers are not represented: the service reaches them only
      through amounts that are not integers, which the model leaves out.
    - The plain object [usersDb] is a finite map over its own properties;
      a lookup that misses them finds the properties of [Object.prototype]
      ([Object_prototype_keys]).
    - A response of the service carries the object handed to [res.json];
      [json_user] is what the component reads back from its JSON text.
    - What the platform supplies at run time ([Math.random], [Date.now], the
      replies of the provider) enters as arguments of the events.
    - Audio playback and the rendering of the component are left out. *)

From Stdlib Require Import ZArith String Ascii DecimalString Lia.
From stdpp Require Import base option list gmap.

Local Open Scope Z_scope.

(** ** JavaScript values *)

Abbreviation jsstring := (list N).

Definition lit (s : string) : jsstring :=
  map N_of_ascii (list_ascii_of_string s).

(** [number]: the values of a [credits] field. *)
Inductive number : Set :=
| Int (z : Z)
| Infinity
| NegInfinity
| NaN
| Null.

Global Instance number_eq_dec : EqDecision number.
Proof. solve_decision. Defined.

(** The double nearest to the integer [z], ties to the even significand:
    what [JSON.parse] makes of an integer literal and what an arithmetic
    operation returns for the exact result [z]. An integer of magnitude up
    to 2^53 is a double; above, 53 significant bits are kept; from
    2^1024 - 2^970 on the result is infinite. *)
Definition double_of_Z (z : Z) : number :=
  let a := Z.abs z in
  if a <=? 2 ^ 53 then Int z
  else
    let e := Z.log2 a - 52 in
    let q := a / 2 ^ e in
    let r := a mod 2 ^ e in
    let half := 2 ^ (e - 1) in
    let q' := if r <? half then q
              else if half <? r then q + 1
              else if Z.even q then q else q + 1 in
    let m := q' * 2 ^ e in
    if 2 ^ 1024 <=? m
    then (if z <? 0 then NegInfinity else Infinity)
    else Int (Z.sgn z * m).

(** [x !== Infinity] *)
Definition neq_Infinity (x : number) : bool :=
  match x with
  | Infinity => false
  | _ => true
  end.

(** [x - y]; [null] converts to 0. *)
Definition num_sub (x y : number) : number :=
  match x, y with
  | NaN, _ | _, NaN => NaN
  | Infinity, Infinity | NegInfinity, NegInfinity => NaN
  | Infinity, _ | _, NegInfinity => Infinity
  | NegInfinity, _ | _, Infinity => NegInfinity
  | Int b, Int a => double_of_Z (b - a)
  | Int b, Null => Int b
  | Null, Int a => Int (- a)
  | Null, Null => Int 0
  end.

(** [x < n] for an integer [n]; [null] converts to 0. *)
Definition num_ltb (x : number) (n : Z) : bool :=
  match x with
  | Int b => b <? n
  | Infinity => false
  | NegInfinity => true
  | NaN => false
  | Null => 0 <? n
  end.

(** [x >= 0] *)
Definition nonneg (x : number) : Prop :=
  match x with
  | Int b => 0 <= b
  | Infinity => True
  | NegInfinity => False
  | NaN => False
  | Null => True
  end.

(** [JSON.parse(JSON.stringify(x))]: JSON has no text for the infinities
    and [NaN] and writes [null] in their place. *)
Definition json_number (x : number) : number :=
  match x with
  | Int z => Int z
  | _ => Null
  end.

(** Truthiness of a value that is [undefined] or a string. *)
Definition truthy (s : option jsstring) : bool :=
  match s with
  | Some (_ :: _) => true
  | _ => false
  end.

(** The record [{ email, credits, isPremium }] of both source files. *)
Record User : Set := mkUser {
  email : jsstring;
  credits : number;
  isPremium : bool
}.

Definition set_credits (c : number) (u : User) : User :=
  {| email := email u; credits := c; isPremium := isPremium u |}.

(** The account the component reads from the JSON text of [u]. *)
Definition json_user (u : User) : User :=
  set_credits (json_number (credits u)) u.

(** ** server.ts *)

Module Server.

Definition SPECIAL_EMAILS : list jsstring :=
  [ lit "amliyarsachin248@gmail.com"; lit "amaliyarmanu5@gmail.com";
    lit "sachinamliyar15@gmail.com"; lit "robotlinkan@gmail.com" ].

(** The names [Object.prototype] defines: a lookup [usersDb[key]] that
    finds no property of [usersDb] itself returns the function, or for
    [__proto__] the object, found under these names. *)
Definition Object_prototype_keys : list jsstring :=
  [ lit "constructor"; lit "__defineGetter__"; lit "__defineSetter__";
    lit "hasOwnProperty"; lit "__lookupGetter__"; lit "__lookupSetter__";
    lit "isPrototypeOf"; lit "propertyIsEnumerable"; lit "toString";
    lit "valueOf"; lit "__proto__"; lit "toLocaleString" ].

(** [res.json(user)] with status 200 for an account; the same with a value
    inherited from [Object.prototype], whose JSON text is no account; or
    [res.status(401).json({ error })]. *)
Inductive Response : Set :=
| Json200 (body : User)
| Json200_inherited
| Json401 (error : jsstring).

(** [SPECIAL_EMAILS.includes(mockEmail)] *)
Definition includes (l : list jsstring) (x : jsstring) : bool :=
  bool_decide (x ∈ l).

(** [usersDb[key]] finds an inherited value (all of them are truthy). *)
Definition inherited (key : jsstring) : bool :=
  bool_decide (key ∈ Object_prototype_keys).

(** [app.get("/api/user", ...)]: the cookie [mock_session] and the
    database before; the response and the database after. *)
Definition get_user (mock_session : option jsstring)
    (usersDb : gmap jsstring User) : Response * gmap jsstring User :=
  match mock_session with
  | Some ((_ :: _) as mockEmail) =>
      match usersDb !! mockEmail with
      | None =>
          if inherited mockEmail then (Json200_inherited, usersDb)
          else
            let isSpecial := includes SPECIAL_EMAILS mockEmail in
            let u := {| email := mockEmail;
                        credits := if isSpecial then Infinity else Int 20000;
                        isPremium := isSpecial |} in
            (Json200 u, <[ mockEmail := u ]> usersDb)
      | Some u => (Json200 u, usersDb)
      end
  | _ => (Json401 (lit "Unauthorized"), usersDb)
  end.

(** [app.post("/api/user/deduct", ...)]: the cookie, the integer [amount]
    written in the request body and the database before; the response and
    the database after. For an inherited value the assignment to [credits]
    lands on that value, not in the database. *)
Definition post_deduct (mock_session : option jsstring) (amount : Z)
    (usersDb : gmap jsstring User) : Response * gmap jsstring User :=
  match mock_session with
  | Some ((_ :: _) as email) =>
      match usersDb !! email with
      | None =>
          if inherited email then (Json200_inherited, usersDb)
          else (Json401 (lit "User not found"), usersDb)
      | Some u =>
          if neq_Infinity (credits u)
          then
            let u' := set_credits (num_sub (credits u) (double_of_Z amount)) u in
            (Json200 u', <[ email := u' ]> usersDb)
          else (Json200 u, usersDb)
      end
  | _ => (Json401 (lit "User not found"), usersDb)
  end.

(** The balance the database holds for an identity. *)
Definition balance (email : jsstring) (usersDb : gmap jsstring User)
    : option number :=
  credits <$> usersDb !! email.

End Server.

(** ** App.tsx: the WAV container encoder *)

(** *** [atob]: the platform's forgiving base64 decoder *)

(** ASCII whitespace: TAB, LF, FF, CR and SPACE. *)
Definition is_ascii_whitespace (c : N) : bool :=
  ((c =? 9) || (c =? 10) || (c =? 12) || (c =? 13) || (c =? 32))%N.

(** The value of a character of the base64 alphabet. *)
Definition b64_value (c : N) : option N :=
  (if (65 <=? c) && (c <=? 90) then Some (c - 65)
   else if (97 <=? c) && (c <=? 122) then Some (c - 71)
   else if (48 <=? c) && (c <=? 57) then Some (c + 4)
   else if c =? 43 then Some 62
   else if c =? 47 then Some 63
   else None)%N.

(** Remove up to two trailing [=] from data whose length is a multiple of
    four. *)
Definition strip_padding (d : jsstring) : jsstring :=
  if (length d mod 4 =? 0)%nat then
    match reverse d with
    | 61%N :: 61%N :: r => reverse r
    | 61%N :: r => reverse r
    | _ => d
    end
  else d.

(** Six bits per character, most significant first; the bits left over at
    the end are dropped. *)
Fixpoint b64_bytes (v : list N) : jsstring :=
  match v with
  | a :: b :: c :: d :: rest =>
      let n := N.lor (N.lor (N.shiftl a 18) (N.shiftl b 12))
                     (N.lor (N.shiftl c 6) d) in
      N.land (N.shiftr n 16) 255 :: N.land (N.shiftr n 8) 255
        :: N.land n 255 :: b64_bytes rest
  | [a; b; c] =>
      let n := N.lor (N.lor (N.shiftl a 18) (N.shiftl b 12)) (N.shiftl c 6) in
      [N.land (N.shiftr n 16) 255; N.land (N.shiftr n 8) 255]
  | [a; b] =>
      let n := N.lor (N.shiftl a 18) (N.shiftl b 12) in
      [N.land (N.shiftr n 16) 255]
  | _ => []
  end.

(** [atob(data)]: the binary string, or [None] when the platform throws an
    [InvalidCharacterError]. *)
Definition atob (data : jsstring) : option jsstring :=
  let d := strip_padding (filter (λ c, is_ascii_whitespace c = false) data) in
  if (length d mod 4 =? 1)%nat then None
  else b64_bytes <$> mapM b64_value d.

(** *** [ArrayBuffer], [DataView] and [Uint8Array] *)

(** A buffer is the list of its bytes, each in [0, 256). The writers return
    [None] where the platform throws a [RangeError]. *)

Definition setUint8 (byteOffset : nat) (value : Z) (buffer : list Z)
    : option (list Z) :=
  if decide (byteOffset < length buffer)%nat
  then Some (<[ byteOffset := value mod 256 ]> buffer)
  else None.

(** Byte [k] of the little-endian representation of [value]. *)
Definition le_byte (k : Z) (value : Z) : Z :=
  Z.land (Z.shiftr value (8 * k)) 255.

(** [view.setUint16(byteOffset, value, true)] *)
Definition setUint16 (byteOffset : nat) (value : Z) (buffer : list Z)
    : option (list Z) :=
  buffer ← setUint8 byteOffset (le_byte 0 value) buffer;
  setUint8 (byteOffset + 1) (le_byte 1 value) buffer.

(** [view.setUint32(byteOffset, value, true)] *)
Definition setUint32 (byteOffset : nat) (value : Z) (buffer : list Z)
    : option (list Z) :=
  buffer ← setUint8 byteOffset (le_byte 0 value) buffer;
  buffer ← setUint8 (byteOffset + 1) (le_byte 1 value) buffer;
  buffer ← setUint8 (byteOffset + 2) (le_byte 2 value) buffer;
  setUint8 (byteOffset + 3) (le_byte 3 value) buffer.

(** [writeString(offset, string)]: one [setUint8] per character. *)
Fixpoint writeString (offset : nat) (string : jsstring) (buffer : list Z)
    : option (list Z) :=
  match string with
  | [] => Some buffer
  | c :: rest =>
      buffer ← setUint8 offset (Z.of_N c) buffer;
      writeString (S offset) rest buffer
  end.

(** [new Uint8Array(buffer, byteOffset).set(bytes)] *)
Definition set_from (byteOffset : nat) (bytes : list Z) (buffer : list Z)
    : option (list Z) :=
  if decide (byteOffset + length bytes <= length buffer)%nat
  then Some (take byteOffset buffer ++ bytes
               ++ drop (byteOffset + length bytes) buffer)
  else None.

(** [view.getUint16(byteOffset, true)] and [view.getUint32(byteOffset, true)],
    the readers that match the writers above. *)
Definition getUint16 (byteOffset : nat) (buffer : list Z) : option Z :=
  b0 ← buffer !! byteOffset;
  b1 ← buffer !! (byteOffset + 1)%nat;
  Some (b0 + 256 * b1).

Definition getUint32 (byteOffset : nat) (buffer : list Z) : option Z :=
  b0 ← buffer !! byteOffset;
  b1 ← buffer !! (byteOffset + 1)%nat;
  b2 ← buffer !! (byteOffset + 2)%nat;
  b3 ← buffer !! (byteOffset + 3)%nat;
  Some (b0 + 256 * b1 + 65536 * b2 + 16777216 * b3).

(** *** [Blob] and [URL.createObjectURL] *)

Record Blob : Set := mkBlob {
  blob_bytes : list Z;
  blob_type : jsstring
}.

(** The object URLs of the session: URL [n] names the [n]-th blob that was
    registered. [createObjectURL] returns a URL that was not in use. *)
Definition createObjectURL (blob : Blob) (blobs : list Blob)
    : nat * list Blob :=
  (length blobs, blobs ++ [blob]).

(** *** [createWavUrl] *)

(** The bytes of the container, or [None] when [atob] throws. *)
Definition wav_buffer (base64 : jsstring) (sampleRate : Z)
    : option (list Z) :=
  binaryString ← atob base64;
  let bytes := (λ c, Z.of_N c mod 256) <$> binaryString in
  let buffer := replicate (44 + length bytes) 0 in
  view ← writeString 0 (lit "RIFF") buffer;
  view ← setUint32 4 (36 + Z.of_nat (length bytes)) view;
  view ← writeString 8 (lit "WAVE") view;
  view ← writeString 12 (lit "fmt ") view;
  view ← setUint32 16 16 view;
  view ← setUint16 20 1 view;
  view ← setUint16 22 1 view;
  view ← setUint32 24 sampleRate view;
  view ← setUint32 28 (sampleRate * 2) view;
  view ← setUint16 32 2 view;
  view ← setUint16 34 16 view;
  view ← writeString 36 (lit "data") view;
  view ← setUint32 40 (Z.of_nat (length bytes)) view;
  set_from 44 bytes view.

(** [createWavUrl(base64, sampleRate)]: the URL and the session's blobs
    after the call. *)
Definition createWavUrl (base64 : jsstring) (sampleRate : Z)
    (blobs : list Blob) : option (nat * list Blob) :=
  buffer ← wav_buffer base64 sampleRate;
  Some (createObjectURL {| blob_bytes := buffer;
                           blob_type := lit "audio/wav" |} blobs).

(** The default value of the parameter [sampleRate]. *)
Definition default_sampleRate : Z := 24000.

(** *** The layout the encoder produces *)

(** The bytes a [setUint16] and a [setUint32] leave in the buffer. *)
Definition u16le (v : Z) : list Z :=
  [le_byte 0 v mod 256; le_byte 1 v mod 256].

Definition u32le (v : Z) : list Z :=
  [le_byte 0 v mod 256; le_byte 1 v mod 256;
   le_byte 2 v mod 256; le_byte 3 v mod 256].

(** The 44 bytes in front of [n] bytes of samples at rate [r]. *)
Definition wav_header (n : nat) (r : Z) : list Z :=
  [82; 73; 70; 70] ++ u32le (36 + Z.of_nat n)
    ++ [87; 65; 86; 69] ++ [102; 109; 116; 32] ++ u32le 16
    ++ u16le 1 ++ u16le 1 ++ u32le r ++ u32le (r * 2)
    ++ u16le 2 ++ u16le 16 ++ [100; 97; 116; 97] ++ u32le (Z.of_nat n).

(** The bytes the decoded payload becomes in the [Uint8Array]. *)
Definition pcm_bytes (binaryString : jsstring) : list Z :=
  (λ c, Z.of_N c mod 256) <$> binaryString.

(** ** App.tsx: strings of the pipeline *)

(** The code units [String.prototype.trim] removes (white space and line
    terminators). *)
Definition is_js_whitespace (c : N) : bool :=
  ((9 <=? c) && (c <=? 13) || (c =? 32) || (c =? 160) || (c =? 5760)
   || (8192 <=? c) && (c <=? 8202) || (c =? 8232) || (c =? 8233)
   || (c =? 8239) || (c =? 8287) || (c =? 12288) || (c =? 65279))%N.

Fixpoint trimStart (s : jsstring) : jsstring :=
  match s with
  | c :: rest => if is_js_whitespace c then trimStart rest else s
  | [] => []
  end.

Definition trim (s : jsstring) : jsstring :=
  reverse (trimStart (reverse (trimStart s))).

(** [!s.trim()] *)
Definition blank (s : jsstring) : bool :=
  match trim s with
  | [] => true
  | _ :: _ => false
  end.

Fixpoint startsWith (s prefix : jsstring) : bool :=
  match prefix, s with
  | [], _ => true
  | p :: prefix', c :: s' => (p =? c)%N && startsWith s' prefix'
  | _ :: _, [] => false
  end.

(** [s.includes(needle)]: case-sensitive search for a substring. *)
Fixpoint includes (s needle : jsstring) : bool :=
  startsWith s needle
  || match s with
     | [] => false
     | _ :: s' => includes s' needle
     end.

(** Decimal rendering of an integer inside a template literal. *)
Definition string_of_Z (z : Z) : jsstring :=
  lit (NilZero.string_of_int (Z.to_int z)).

(** A [credits] value inside a template literal. An integer is written
    with all its digits, as the platform does below 10^21 in magnitude;
    from there on the platform switches to exponent notation, which this
    function does not follow. *)
Definition string_of_number (x : number) : jsstring :=
  match x with
  | Int z => string_of_Z z
  | Infinity => lit "Infinity"
  | NegInfinity => lit "-Infinity"
  | NaN => lit "NaN"
  | Null => lit "null"
  end.

(** [s.length] *)
Definition len (s : jsstring) : Z := Z.of_nat (length s).

(** An exception value: [err.name] and [err.message] (which may be
    [undefined]). *)
Record JSError : Set := mkError {
  name : jsstring;
  message : option jsstring
}.

(** [new Error(msg)] *)
Definition Error (msg : jsstring) : JSError :=
  {| name := lit "Error"; message := Some msg |}.

(** The [DOMException] that [atob] throws on malformed input. The text of
    its message differs from one platform to the other, and the one below
    stands for any of them: no property below depends on it. *)
Definition InvalidCharacterError : JSError :=
  {| name := lit "InvalidCharacterError";
     message := Some (lit "The string to be decoded is not correctly encoded.") |}.

(** ["..." + err.message] *)
Definition string_of_message (m : option jsstring) : jsstring :=
  match m with
  | Some s => s
  | None => lit "undefined"
  end.

(** ** App.tsx: the state of the component *)

Inductive Mode : Set := tts | voice_changer | dubbing.

Global Instance Mode_eq_dec : EqDecision Mode.
Proof. solve_decision. Defined.

(** An entry of [VOICES]. *)
Record Voice : Set := mkVoice {
  voice_id : jsstring;
  voice_name : jsstring;
  voice_description : jsstring;
  voice_gender : jsstring;
  voice_tags : list jsstring
}.

(** A [File] of the file input: its name, size and MIME type, and the base64
    part of the data URL a [FileReader] produces for it. *)
Record File : Set := mkFile {
  file_name : jsstring;
  file_size : Z;
  file_type : jsstring;
  file_base64 : jsstring
}.

(** [{ file, base64, mimeType }] *)
Record UploadedAudio : Set := mkUploadedAudio {
  file : File;
  base64 : jsstring;
  mimeType : jsstring
}.

Record HistoryItem : Set := mkHistoryItem {
  item_id : jsstring;
  item_text : jsstring;
  item_voice : jsstring;
  item_audioUrl : nat;
  item_timestamp : Z
}.

(** The network calls the handlers issue. The requests to [/api/user] and
    to [/api/auth/logout] are not logged: the events that deliver their
    replies stand for them. *)
Inductive Call : Set :=
| CallAuthUrl                                       (* fetch('/api/auth/url') *)
| CallText (prompt : jsstring) (audio : UploadedAudio)   (* gemini-2.5-flash *)
| CallSynthesis (text : jsstring) (voiceName : jsstring) (* gemini-2.5-flash-preview-tts *)
| CallDeduct (amount : Z)                           (* POST /api/user/deduct *)
| CallPreview (voiceName : jsstring).               (* the same model, on the fixed sentence *)

(** A suspended invocation of [generateSpeech]: the values its closure
    captured, and where it waits. *)
Inductive Pending : Set :=
| AwaitText (u : User) (voice : Voice)
    (* at [await ai.models.generateContent] of the transcription *)
| AwaitRace (u : User) (voice : Voice) (processingText : jsstring).
    (* at [await Promise.race([responsePromise, abort])] *)

(** The state hooks and the ref of [App], then the environment: the object
    URLs, the log of calls issued (newest first), the suspended invocations
    by request number and the next request number. The [AbortController] of
    a request is named by the request's number. *)
Record AppState : Type := mkApp {
  text : jsstring;
  selectedVoice : Voice;
  isGenerating : bool;
  audioUrl : option nat;
  history : list HistoryItem;
  error : option jsstring;
  showMonetization : bool;
  mode : Mode;
  uploadedAudio : option UploadedAudio;
  targetLanguage : jsstring;
  loadingStatus : option jsstring;
  user : option User;
  previewingVoice : option jsstring;
  abortControllerRef : option nat;
  blobs : list Blob;
  calls : list Call;
  pending : gmap nat Pending;
  nextId : nat
}.

Definition setText v s := mkApp v (selectedVoice s) (isGenerating s) (audioUrl s) (history s) (error s) (showMonetization s) (mode s) (uploadedAudio s) (targetLanguage s) (loadingStatus s) (user s) (previewingVoice s) (abortControllerRef s) (blobs s) (calls s) (pending s) (nextId s).
Definition setIsGenerating v s := mkApp (text s) (selectedVoice s) v (audioUrl s) (history s) (error s) (showMonetization s) (mode s) (uploadedAudio s) (targetLanguage s) (loadingStatus s) (user s) (previewingVoice s) (abortControllerRef s) (blobs s) (calls s) (pending s) (nextId s).
Definition setAudioUrl v s := mkApp (text s) (selectedVoice s) (isGenerating s) v (history s) (error s) (showMonetization s) (mode s) (uploadedAudio s) (targetLanguage s) (loadingStatus s) (user s) (previewingVoice s) (abortControllerRef s) (blobs s) (calls s) (pending s) (nextId s).
Definition setHistory f s := mkApp (text s) (selectedVoice s) (isGenerating s) (audioUrl s) (f (history s)) (error s) (showMonetization s) (mode s) (uploadedAudio s) (targetLanguage s) (loadingStatus s) (user s) (previewingVoice s) (abortControllerRef s) (blobs s) (calls s) (pending s) (nextId s).
Definition setError v s := mkApp (text s) (selectedVoice s) (isGenerating s) (audioUrl s) (history s) v (showMonetization s) (mode s) (uploadedAudio s) (targetLanguage s) (loadingStatus s) (user s) (previewingVoice s) (abortControllerRef s) (blobs s) (calls s) (pending s) (nextId s).
Definition setShowMonetization v s := mkApp (text s) (selectedVoice s) (isGenerating s) (audioUrl s) (history s) (error s) v (mode s) (uploadedAudio s) (targetLanguage s) (loadingStatus s) (user s) (previewingVoice s) (abortControllerRef s) (blobs s) (calls s) (pending s) (nextId s).
Definition setMode v s := mkApp (text s) (selectedVoice s) (isGenerating s) (audioUrl s) (history s) (error s) (showMonetization s) v (uploadedAudio s) (targetLanguage s) (loadingStatus s) (user s) (previewingVoice s) (abortControllerRef s) (blobs s) (calls s) (pending s) (nextId s).
Definition setUploadedAudio v s := mkApp (text s) (selectedVoice s) (isGenerating s) (audioUrl s) (history s) (error s) (showMonetization s) (mode s) v (targetLanguage s) (loadingStatus s) (user s) (previewingVoice s) (abortControllerRef s) (blobs s) (calls s) (pending s) (nextId s).
Definition setLoadingStatus v s := mkApp (text s) (selectedVoice s) (isGenerating s) (audioUrl s) (history s) (error s) (showMonetization s) (mode s) (uploadedAudio s) (targetLanguage s) v (user s) (previewingVoice s) (abortControllerRef s) (blobs s) (calls s) (pending s) (nextId s).
Definition setUser v s := mkApp (text s) (selectedVoice s) (isGenerating s) (audioUrl s) (history s) (error s) (showMonetization s) (mode s) (uploadedAudio s) (targetLanguage s) (loadingStatus s) v (previewingVoice s) (abortControllerRef s) (blobs s) (calls s) (pending s) (nextId s).
Definition setPreviewingVoice v s := mkApp (text s) (selectedVoice s) (isGenerating s) (audioUrl s) (history s) (error s) (showMonetization s) (mode s) (uploadedAudio s) (targetLanguage s) (loadingStatus s) (user s) v (abortControllerRef s) (blobs s) (calls s) (pending s) (nextId s).
Definition setAbortControllerRef v s := mkApp (text s) (selectedVoice s) (isGenerating s) (audioUrl s) (history s) (error s) (showMonetization s) (mode s) (uploadedAudio s) (targetLanguage s) (loadingStatus s) (user s) (previewingVoice s) v (blobs s) (calls s) (pending s) (nextId s).
Definition setBlobs v s := mkApp (text s) (selectedVoice s) (isGenerating s) (audioUrl s) (history s) (error s) (showMonetization s) (mode s) (uploadedAudio s) (targetLanguage s) (loadingStatus s) (user s) (previewingVoice s) (abortControllerRef s) v (calls s) (pending s) (nextId s).
Definition issue c s := mkApp (text s) (selectedVoice s) (isGenerating s) (audioUrl s) (history s) (error s) (showMonetization s) (mode s) (uploadedAudio s) (targetLanguage s) (loadingStatus s) (user s) (previewingVoice s) (abortControllerRef s) (blobs s) (c :: calls s) (pending s) (nextId s).
Definition setPending v s := mkApp (text s) (selectedVoice s) (isGenerating s) (audioUrl s) (history s) (error s) (showMonetization s) (mode s) (uploadedAudio s) (targetLanguage s) (loadingStatus s) (user s) (previewingVoice s) (abortControllerRef s) (blobs s) (calls s) v (nextId s).
Definition setNextId v s := mkApp (text s) (selectedVoice s) (isGenerating s) (audioUrl s) (history s) (error s) (showMonetization s) (mode s) (uploadedAudio s) (targetLanguage s) (loadingStatus s) (user s) (previewingVoice s) (abortControllerRef s) (blobs s) (calls s) (pending s) v.

(** ** App.tsx: the handlers *)

Definition VOICES : list Voice :=
  [ mkVoice (lit "Puck") (lit "VoxAI Frank (Friend Style)")
      (lit "A highly realistic, casual, and friendly conversational voice, exactly like an ElevenLabs Friend Character. Speaks naturally with perfect pacing, warm tone, and engaging delivery.")
      (lit "Male") [lit "friendly"; lit "podcast"; lit "casual"; lit "elevenlabs"];
    mkVoice (lit "Charon") (lit "VoxAI Marcus (Corporate)")
      (lit "Clear, professional, and steady. Perfect for corporate presentations.")
      (lit "Male") [lit "Corporate"; lit "Normal"];
    mkVoice (lit "Fenrir") (lit "VoxAI Palit (Documentary)")
      (lit "World-class documentary voice. Deep, emotional, perfect pacing, and highly engaging.")
      (lit "Male") [lit "Documentary"; lit "Emotional"; lit "Premium"];
    mkVoice (lit "Kore") (lit "VoxAI Sarah (Cheerful)")
      (lit "Bright, energetic, and friendly. Great for ads and social media.")
      (lit "Female") [lit "Ad"; lit "Social"];
    mkVoice (lit "Zephyr") (lit "VoxAI Luna (Soft)")
      (lit "Calm, soothing, and gentle. Perfect for meditation or ASMR.")
      (lit "Female") [lit "Meditation"; lit "ASMR"] ].

Definition MAX_CHARS : Z := 20000.

(** The state of [App] when it mounts. *)
Definition initial : AppState :=
  {| text := []; selectedVoice := default (mkVoice [] [] [] [] []) (head VOICES);
     isGenerating := false; audioUrl := None; history := []; error := None;
     showMonetization := false; mode := tts; uploadedAudio := None;
     targetLanguage := lit "Hindi"; loadingStatus := None; user := None;
     previewingVoice := None; abortControllerRef := None; blobs := []; calls := []; pending := ∅;
     nextId := 0 |}.

(** [handleLogin]: asks the service for the login URL. *)
Definition handleLogin (s : AppState) : AppState := issue CallAuthUrl s.

(** [onClick={() => setMode(m)}] of the mode selector is [setMode m]. *)

(** [handleFileUpload]: the state after the handler returns, and the file a
    [FileReader] was started on, if any. *)
Definition handleFileUpload (files0 : option File) (s : AppState)
    : AppState * option File :=
  match files0 with
  | None => (s, None)
  | Some f =>
      if 50 * 1024 * 1024 <? file_size f
      then (setError (Some (lit "File size exceeds 50MB limit.")) s, None)
      else (s, Some f)
  end.

(** [reader.onloadend] *)
Definition reader_onloadend (f : File) (s : AppState) : AppState :=
  setUploadedAudio
    (Some {| file := f; base64 := file_base64 f; mimeType := file_type f |}) s.

(** The messages of [generateSpeech]. *)
Definition msg_limit : jsstring :=
  lit "Text exceeds the " ++ string_of_Z MAX_CHARS ++ lit " character limit.".

Definition msg_insufficient (need : Z) (have : number) : jsstring :=
  lit "Insufficient credits. You need " ++ string_of_Z need
    ++ lit " credits but have " ++ string_of_number have
    ++ lit ". Please upgrade to Premium.".

Definition msg_empty_response : jsstring :=
  lit "The AI model returned an empty response. Please try again with shorter text or a different voice.".

Definition msg_quota : jsstring :=
  lit "API Quota Exceeded (429): Your API key has reached its limit. Please wait a minute or check your Google Cloud billing.".

(** The test of the [catch] block for a cancellation:
    [err.name === 'AbortError' || err.message?.includes('abort')]. *)
Definition is_abort (err : JSError) : bool :=
  bool_decide (name err = lit "AbortError")
  || match message err with
     | Some m => includes m (lit "abort")
     | None => false
     end.

Definition is_quota (err : JSError) : bool :=
  match message err with
  | Some ((_ :: _) as m) =>
      includes m (lit "429") || includes m (lit "RESOURCE_EXHAUSTED")
      || includes m (lit "quota")
  | _ => false
  end.

(** The [catch] block of the synthesis stage. *)
Definition catch_block (err : JSError) (s : AppState) : AppState :=
  if is_abort err then s
  else if is_quota err then setError (Some msg_quota) s
  else
    setError
      (Some match message err with
            | Some ((_ :: _) as m) => m
            | _ => lit "Connection failed. Please check your internet or API key."
            end) s.

(** The [finally] block of the synthesis stage. *)
Definition finally_block (s : AppState) : AppState :=
  setAbortControllerRef None (setLoadingStatus None (setIsGenerating false s)).

(** The text of a history entry:
    [t.length > 80 ? t.substring(0, 80) + '...' : t]. *)
Definition truncated (t : jsstring) : jsstring :=
  if 80 <? len t then take 80 t ++ lit "..." else t.

(** The [try] block after the race was won by the provider's response:
    [base64Audio] is the payload of the response, [rnd] the token of
    [Math.random] and [now] the value of [Date.now()]. *)
Definition on_response (u : User) (voice : Voice) (processingText : jsstring)
    (base64Audio : option jsstring) (rnd : jsstring) (now : Z)
    (s : AppState) : AppState :=
  match base64Audio with
  | Some ((_ :: _) as payload) =>
      let s :=
        if neq_Infinity (credits u)
        then issue (CallDeduct (len processingText)) s
        else s in
      match createWavUrl payload default_sampleRate (blobs s) with
      | None => catch_block InvalidCharacterError s
      | Some (url, blobs') =>
          let s := setAudioUrl (Some url) (setBlobs blobs' s) in
          let newItem :=
            {| item_id := rnd;
               item_text := truncated processingText;
               item_voice := voice_name voice;
               item_audioUrl := url;
               item_timestamp := now |} in
          setHistory (cons newItem) s
      end
  | _ => catch_block (Error msg_empty_response) s
  end.

(** How the race of the provider's call against the abort signal settles. *)
Inductive Settlement : Set :=
| Fulfilled (base64Audio : option jsstring)
| Rejected (err : JSError).

(** The invocation [rid] resumes after [await Promise.race(...)]. *)
Definition resume_race (rid : nat) (u : User) (voice : Voice)
    (processingText : jsstring) (r : Settlement) (rnd : jsstring) (now : Z)
    (s : AppState) : AppState :=
  let s := setPending (delete rid (pending s)) s in
  finally_block
    match r with
    | Fulfilled base64Audio => on_response u voice processingText base64Audio rnd now s
    | Rejected err => catch_block err s
    end.

(** The checks on the composed text and the start of the synthesis call
    (from [if (!processingText.trim())] to the [await] of the race). *)
Definition generateSpeech_checks (rid : nat) (u : User) (voice : Voice)
    (processingText : jsstring) (s : AppState) : AppState :=
  let stop s := setLoadingStatus None (setIsGenerating false s) in
  if blank processingText then
    stop (setError (Some (lit "Text is empty.")) s)
  else if MAX_CHARS <? len processingText then
    stop (setError (Some msg_limit) s)
  else if neq_Infinity (credits u) && num_ltb (credits u) (len processingText) then
    stop (setShowMonetization true
            (setError (Some (msg_insufficient (len processingText) (credits u))) s))
  else
    let s := setError None
               (setLoadingStatus (Some (lit "Generating AI voice..."))
                  (setIsGenerating true s)) in
    let s := setAbortControllerRef (Some rid) s in
    let s := issue (CallSynthesis processingText (voice_id voice)) s in
    setPending (<[ rid := AwaitRace u voice processingText ]> (pending s)) s.

(** The invocation [rid] resumes after the [await] of the transcription or
    translation call: [r] is the rejection, or [textResponse.text]. *)
Definition resume_text (rid : nat) (u : User) (voice : Voice)
    (r : JSError + option jsstring) (s : AppState) : AppState :=
  let s := setPending (delete rid (pending s)) s in
  let failed err :=
    setLoadingStatus None
      (setIsGenerating false
         (setError (Some (lit "Failed to process audio file. "
                            ++ string_of_message (message err))) s)) in
  match r with
  | inl err => failed err
  | inr textResponse_text =>
      let processingText := default [] textResponse_text in
      if blank processingText
      then failed (Error (lit "Could not extract speech from audio."))
      else generateSpeech_checks rid u voice processingText
             (setText processingText s)
  end.

(** The instruction of the transcription or translation call. *)
Definition text_prompt (m : Mode) (targetLanguage : jsstring) : jsstring :=
  if decide (m = dubbing)
  then lit "Translate the speech in this audio to " ++ targetLanguage
         ++ lit ". Return ONLY the translated text, nothing else."
  else lit "Transcribe the speech in this audio exactly. Return ONLY the transcription, nothing else.".

(** [generateSpeech], up to its first [await] or its return. *)
Definition generateSpeech (s : AppState) : AppState :=
  match user s with
  | None => handleLogin s
  | Some u =>
      let rid := nextId s in
      if decide (mode s ≠ tts) then
        match uploadedAudio s with
        | None => setError (Some (lit "Please upload an audio file first.")) s
        | Some audio =>
            let s := setNextId (S rid) s in
            let s := setIsGenerating true s in
            let s :=
              setLoadingStatus
                (Some (if decide (mode s = dubbing)
                       then lit "Translating audio..."
                       else lit "Analyzing audio...")) s in
            let s := setError None s in
            let s := issue (CallText (text_prompt (mode s) (targetLanguage s)) audio) s in
            setPending (<[ rid := AwaitText u (selectedVoice s) ]> (pending s)) s
        end
      else
        generateSpeech_checks rid u (selectedVoice s) (text s)
          (setNextId (S rid) s)
  end.

(** [handleCancel]: [abort()] makes the listener of the tracked request
    reject its race with [new Error('AbortError')]; the handler finishes,
    then the rejected invocation resumes. *)
Definition handleCancel (s : AppState) : AppState :=
  match abortControllerRef s with
  | Some rid =>
      let s' :=
        setLoadingStatus None
          (setIsGenerating false (setAbortControllerRef None s)) in
      match pending s !! rid with
      | Some (AwaitRace u voice processingText) =>
          resume_race rid u voice processingText
            (Rejected (Error (lit "AbortError"))) [] 0 s'
      | _ => s'
      end
  | None => s
  end.

(** What happens to the component. *)
Inductive Event : Set :=
| Click_generate
| Click_cancel
| Click_mode (m : Mode)
| Type_text (value : jsstring)
| File_chosen (files0 : option File)
| File_loaded (f : File)
| Text_settled (rid : nat) (r : JSError + option jsstring)
| Synthesis_settled (rid : nat) (r : Settlement) (rnd : jsstring) (now : Z)
| Deduct_settled (data : User).

Definition step (e : Event) (s : AppState) : AppState :=
  match e with
  | Click_generate => generateSpeech s
  | Click_cancel => handleCancel s
  | Click_mode m => setMode m s
  | Type_text value => setText value s
  | File_chosen files0 => (handleFileUpload files0 s).1
  | File_loaded f => reader_onloadend f s
  | Text_settled rid r =>
      match pending s !! rid with
      | Some (AwaitText u voice) => resume_text rid u voice r s
      | _ => s
      end
  | Synthesis_settled rid r rnd now =>
      match pending s !! rid with
      | Some (AwaitRace u voice processingText) =>
          resume_race rid u voice processingText r rnd now s
      | _ => s
      end
  | Deduct_settled data => setUser (Some data) s
  end.

(** The events of a session, in order. *)
Definition run (es : list Event) (s : AppState) : AppState :=
  foldl (λ s e, step e s) s es.

(** Every suspended request carries a number that was handed out. *)
Definition well_numbered (s : AppState) : Prop :=
  ∀ rid : nat, (nextId s <= rid)%nat → pending s !! rid = None.

(** ** Composition followed by the checks *)

(** A click on the generate button and, in the modes that transcribe or
    translate, the settlement of that call with the text [reply]. *)
Definition compose_and_check (s : AppState) (reply : option jsstring)
    : AppState :=
  match mode s with
  | tts => run [Click_generate] s
  | _ => run [Click_generate; Text_settled (nextId s) (inr reply)] s
  end.

(** The text the composer hands to the checks. *)
Definition composed_text (s : AppState) (reply : option jsstring) : jsstring :=
  match mode s with
  | tts => text s
  | _ => default [] reply
  end.

(** The calls composition issues. *)
Definition composition_calls (s : AppState) : list Call :=
  match mode s, uploadedAudio s with
  | tts, _ | _, None => []
  | m, Some audio => [CallText (text_prompt m (targetLanguage s)) audio]
  end.

(** The credit check lets the text pass. *)
Definition affordable (u : User) (t : jsstring) : bool :=
  negb (neq_Infinity (credits u) && num_ltb (credits u) (len t)).

(** ** Sessions used as examples *)

Definition example_user : User :=
  {| email := lit "user@example.com"; credits := Int 20000; isPremium := false |}.


Definition example_file : File :=
  {| file_name := lit "clip.wav"; file_size := 1024;
     file_type := lit "audio/wav"; file_base64 := lit "AAEC" |}.

(** A signed-in session with the text [Hello world] typed in. *)
Definition example_session : AppState :=
  setText (lit "Hello world") (setUser (Some example_user) initial).

(** The same session with a request in flight. *)
Definition example_in_flight : AppState :=
  run [Click_generate] example_session.

(** A text of [n] letters [a]. *)
Definition letters (n : Z) : jsstring := replicate (Z.to_nat n) 97%N.

(** A ledger with one ordinary account, as [GET /api/user] seeds it. *)
Definition example_email : jsstring := lit "user@example.com".

Definition example_db : gmap jsstring User :=
  (Server.get_user (Some example_email) ∅).2.

(** A session with a clip uploaded and the dubbing mode selected. *)
Definition example_dubbing : AppState :=
  run [File_chosen (Some example_file); File_loaded example_file;
       Click_mode dubbing] example_session.

(** ** The service as a whole *)

(** A request to one of the two endpoints of [server.ts]. *)
Inductive Request : Set :=
| GetUser (mock_session : option jsstring)
| PostDeduct (mock_session : option jsstring) (amount : Z).

Definition serve (r : Request) (usersDb : gmap jsstring User)
    : Server.Response * gmap jsstring User :=
  match r with
  | GetUser c => Server.get_user c usersDb
  | PostDeduct c amount => Server.post_deduct c amount usersDb
  end.

(** The session cookie of a request. *)
Definition session_of (r : Request) : option jsstring :=
  match r with
  | GetUser c | PostDeduct c _ => c
  end.

(** The database after the requests [rs], served in order. *)
Definition serve_all (rs : list Request) (usersDb : gmap jsstring User)
    : gmap jsstring User :=
  foldl (λ db r, (serve r db).2) usersDb rs.

(** The database after deducts of the amounts [as_] for one session. *)
Definition deduct_all (c : option jsstring) (amounts : list Z)
    (usersDb : gmap jsstring User) : gmap jsstring User :=
  serve_all (PostDeduct c <$> amounts) usersDb.

(** Sum of a list of amounts. *)
Definition total (amounts : list Z) : Z := foldr Z.add 0 amounts.

(** What every record of the database satisfies: it sits under its own
    email, which is not empty and not a name of [Object.prototype]; it is
    premium exactly when that email is on the allow-list, its balance is
    [Infinity] in that case, and no balance is [null]. *)
Definition ledger_ok (usersDb : gmap jsstring User) : Prop :=
  ∀ (e : jsstring) u,
    usersDb !! e = Some u →
    e ≠ [] ∧ Server.inherited e = false ∧ email u = e
    ∧ isPremium u = Server.includes Server.SPECIAL_EMAILS e
    ∧ (e ∈ Server.SPECIAL_EMAILS → credits u = Infinity)
    ∧ credits u ≠ Null.

(** The amounts and the balances they leave, one after the other from the
    balance [b], stay within the integers that doubles hold exactly. *)
Fixpoint within_safe (b : Z) (amounts : list Z) : Prop :=
  match amounts with
  | [] => True
  | a :: rest =>
      Z.abs a <= 2 ^ 53 ∧ Z.abs (b - a) <= 2 ^ 53 ∧ within_safe (b - a) rest
  end.

(** The amounts of the deducts among the requests [rs]. *)
Definition deduct_amounts (rs : list Request) : list Z :=
  omap (λ r, match r with PostDeduct _ amount => Some amount | _ => None end) rs.

(** Every integer balance is at most the seed of 20000. *)
Definition below_seed (usersDb : gmap jsstring User) : Prop :=
  ∀ (e : jsstring) u (b : Z),
    usersDb !! e = Some u → credits u = Int b → b <= 20000.

(** ** App.tsx: the remaining handlers *)

(** [handleLogout], once its [fetch] has settled: [resolved] tells whether
    the promise resolved (with any status) or rejected. *)
Definition handleLogout (resolved : bool) (s : AppState) : AppState :=
  if resolved
  then setAudioUrl None (setHistory (λ _, []) (setUser None s))
  else s.

(** [onClick={() => setHistory([])}] of the history panel. *)
Definition clearHistory (s : AppState) : AppState := setHistory (λ _, []) s.

(** [setSelectedVoice] and [setTargetLanguage], which the record update
    functions above do not cover. *)
Definition setSelectedVoice (v : Voice) (s : AppState) : AppState :=
  mkApp (text s) v (isGenerating s) (audioUrl s) (history s) (error s)
    (showMonetization s) (mode s) (uploadedAudio s) (targetLanguage s)
    (loadingStatus s) (user s) (previewingVoice s) (abortControllerRef s) (blobs s) (calls s)
    (pending s) (nextId s).

Definition setTargetLanguage (l : jsstring) (s : AppState) : AppState :=
  mkApp (text s) (selectedVoice s) (isGenerating s) (audioUrl s) (history s)
    (error s) (showMonetization s) (mode s) (uploadedAudio s) l
    (loadingStatus s) (user s) (previewingVoice s) (abortControllerRef s) (blobs s) (calls s)
    (pending s) (nextId s).

(** [playVoicePreview], up to its [await]: nothing while the preview of the
    same voice is marked as running; there is no test of the account. *)
Definition playVoicePreview (voice : Voice) (s : AppState) : AppState :=
  if decide (previewingVoice s = Some (voice_id voice)) then s
  else issue (CallPreview (voice_id voice))
         (setPreviewingVoice (Some (voice_id voice)) s).

(** [playVoicePreview] after its [await]: a payload that is not empty is
    encoded, which registers a blob; a failure is logged and nothing
    else. *)
Definition preview_settled (r : Settlement) (s : AppState) : AppState :=
  match r with
  | Fulfilled (Some ((_ :: _) as payload)) =>
      match createWavUrl payload default_sampleRate (blobs s) with
      | Some (url, blobs') => setBlobs blobs' s
      | None => s
      end
  | _ => s
  end.

(** The timer its [finally] block sets. *)
Definition preview_timeout (s : AppState) : AppState :=
  setPreviewingVoice None s.

(** Everything that happens to the state above: the events of [step] and
    the handlers above. [User_loaded] is a reply to [fetch('/api/user')] as
    the two effects hand it to [setUser]. The state that only drives the
    display (player, sliders, dropdown, search box) and the download links
    have no event. *)
Inductive SessionEvent : Set :=
| Pipeline (e : Event)
| Click_clear
| Logout_settled (resolved : bool)
| Select_voice (v : Voice)
| Select_language (l : jsstring)
| Close_monetization
| User_loaded (data : option User)
| Click_preview (v : Voice)
| Preview_settled (r : Settlement)
| Preview_timeout
| Click_login
| Toggle_monetization.

Definition session_step (e : SessionEvent) (s : AppState) : AppState :=
  match e with
  | Pipeline e => step e s
  | Click_clear => clearHistory s
  | Logout_settled resolved => handleLogout resolved s
  | Select_voice v => setSelectedVoice v s
  | Select_language l => setTargetLanguage l s
  | Close_monetization => setShowMonetization false s
  | User_loaded data => setUser data s
  | Click_preview v => playVoicePreview v s
  | Preview_settled r => preview_settled r s
  | Preview_timeout => preview_timeout s
  | Click_login => handleLogin s
  | Toggle_monetization => setShowMonetization (negb (showMonetization s)) s
  end.

Definition session (es : list SessionEvent) (s : AppState) : AppState :=
  foldl (λ s e, session_step e s) s es.

(** *** The voice search *)

Section Search.

(** [String.prototype.toLowerCase], which the platform supplies. *)
Variable toLowerCase : jsstring → jsstring.

(** [VOICES.filter(v => ...)] for the text of the search box. *)
Definition filteredVoices (searchQuery : jsstring) : list Voice :=
  filter
    (λ v,
       includes (toLowerCase (voice_name v)) (toLowerCase searchQuery)
       || existsb (λ t, includes (toLowerCase t) (toLowerCase searchQuery))
            (voice_tags v) = true)
    VOICES.

End Search.

(** ASCII letters to lower case, every other code unit as it is: what
    [toLowerCase] does on ASCII text. *)
Definition ascii_toLowerCase (s : jsstring) : jsstring :=
  (λ c, if (65 <=? c) && (c <=? 90) then c + 32 else c)%N <$> s.

(** ** What the states of a session satisfy *)

(** A request at the race carries a text that passed the checks. *)
Definition requests_ok (s : AppState) : Prop :=
  ∀ (rid : nat) u voice t,
    pending s !! rid = Some (AwaitRace u voice t) →
    1 <= len t <= MAX_CHARS ∧ affordable u t = true.

(** Every synthesis call that was issued carries a text that is not blank
    and within the ceiling, and every deduct call asks for between 1 and
    [MAX_CHARS] credits. *)
Definition calls_ok (s : AppState) : Prop :=
  Forall (λ c, match c with
               | CallSynthesis t _ => blank t = false ∧ len t <= MAX_CHARS
               | CallDeduct amount => 1 <= amount <= MAX_CHARS
               | _ => True
               end) (calls s).

(** The entries of the history carry a text of at most 83 code units and a
    URL that names a registered blob, and so does the player. *)
Definition history_ok (s : AppState) : Prop :=
  Forall (λ item, len (item_text item) <= 83
                  ∧ is_Some (blobs s !! item_audioUrl item)) (history s)
  ∧ ∀ url, audioUrl s = Some url → is_Some (blobs s !! url).

(** The controller the ref holds belongs to a request that is at the
    race. *)
Definition tracked (s : AppState) : Prop :=
  ∀ rid : nat,
    abortControllerRef s = Some rid →
    ∃ u voice t, pending s !! rid = Some (AwaitRace u voice t).

(** All of the above. *)
Definition session_ok (s : AppState) : Prop :=
  well_numbered s ∧ tracked s ∧ requests_ok s ∧ calls_ok s ∧ history_ok s.

(** The events that neither start, resume nor cancel a request: edits of
    the inputs and of the selection. *)
Definition passive (e : SessionEvent) : bool :=
  match e with
  | Pipeline (Click_mode _) | Pipeline (Type_text _)
  | Pipeline (File_chosen _) | Pipeline (File_loaded _)
  | Select_voice _ | Select_language _ | Close_monetization => true
  | _ => false
  end.

(** The events that put an account into the state. *)
Definition sets_user (e : SessionEvent) : bool :=
  match e with
  | User_loaded _ | Pipeline (Deduct_settled _) => true
  | _ => false
  end.

(** The pipeline is at rest. *)
Definition idle (s : AppState) : Prop :=
  isGenerating s = false ∧ loadingStatus s = None
  ∧ abortControllerRef s = None.

(** The markers of a quota failure. *)
Definition quota_markers : list jsstring :=
  [lit "429"; lit "RESOURCE_EXHAUSTED"; lit "quota"].

(** The calls that go out without an account: the request for the login
    URL and the preview of a voice. *)
Definition login_or_preview (c : Call) : Prop :=
  c = CallAuthUrl ∨ ∃ voiceName, c = CallPreview voiceName.

(** ** More example sessions *)

(** Sign in, upload a clip, select dubbing and click generate: the
    translation call is running. *)
Definition example_composing_events : list SessionEvent :=
  [User_loaded (Some example_user);
   Pipeline (File_chosen (Some example_file));
   Pipeline (File_loaded example_file);
   Pipeline (Click_mode dubbing);
   Pipeline Click_generate].

(** Sign in, type [Hello world] and click generate: the synthesis call is
    running. *)
Definition example_requesting_events : list SessionEvent :=
  [User_loaded (Some example_user);
   Pipeline (Type_text (lit "Hello world"));
   Pipeline Click_generate].

(** A clip of 50 MiB and one byte. *)
Definition example_big_file : File :=
  {| file_name := lit "long.wav"; file_size := 52428801;
     file_type := lit "audio/wav"; file_base64 := lit "AAEC" |}.

(** * Properties *)

Ltac app_simpl :=
  cbn [text selectedVoice isGenerating audioUrl history error showMonetization
       mode uploadedAudio targetLanguage loadingStatus user previewingVoice
       abortControllerRef blobs calls pending nextId setText setIsGenerating
       setAudioUrl setHistory setError setShowMonetization setMode
       setUploadedAudio setLoadingStatus setUser setPreviewingVoice
       setAbortControllerRef setBlobs issue setPending setNextId].

(** ** Numbers *)

Section Numbers.

(** Up to 2^53 every integer is a double. *)
Lemma double_of_Z_safe (z : Z) :
  Z.abs z <= 2 ^ 53 → double_of_Z z = Int z.
Proof.
  intros Hz. unfold double_of_Z.
  destruct (Z.leb_spec (Z.abs z) (2 ^ 53)) as [_|Hgt]; [reflexivity|lia].
Qed.

(** Beyond, the result keeps the sign and stays beyond 2^53 in magnitude,
    or is the infinity of that sign. *)
Lemma double_of_Z_large (z : Z) :
  2 ^ 53 < Z.abs z →
  (∃ m, 2 ^ 53 <= m ∧ double_of_Z z = Int (Z.sgn z * m))
  ∨ (0 < z ∧ double_of_Z z = Infinity)
  ∨ (z < 0 ∧ double_of_Z z = NegInfinity).
Proof.
  intros Hz. unfold double_of_Z.
  destruct (Z.leb_spec (Z.abs z) (2 ^ 53)) as [Hle|_]; [lia|].
  set (a := Z.abs z) in *. set (e := Z.log2 a - 52).
  assert (Ha : 0 < a) by lia.
  assert (Hlog : 53 <= Z.log2 a) by (apply Z.log2_le_pow2; lia).
  assert (He : 1 <= e) by (unfold e; lia).
  assert (Hpe : 2 <= 2 ^ e).
  { change 2 with (2 ^ 1) at 1. apply Z.pow_le_mono_r; lia. }
  assert (Hq : 2 ^ 52 <= a / 2 ^ e).
  { apply Z.div_le_lower_bound; [lia|].
    rewrite <- Z.pow_add_r by lia.
    replace (e + 52) with (Z.log2 a) by (unfold e; lia).
    apply Z.log2_spec. exact Ha. }
  set (q := a / 2 ^ e) in *.
  set (q' := if a mod 2 ^ e <? 2 ^ (e - 1) then q
             else if 2 ^ (e - 1) <? a mod 2 ^ e then q + 1
             else if Z.even q then q else q + 1).
  assert (Hq' : q <= q').
  { unfold q'. repeat match goal with |- context [if ?c then _ else _] =>
      destruct c end; lia. }
  cbv zeta. fold a. fold e. fold q. fold q'.
  destruct (2 ^ 1024 <=? q' * 2 ^ e).
  - destruct (Z.ltb_spec z 0); [right; right|right; left]; split; try reflexivity; lia.
  - left. exists (q' * 2 ^ e). split; [|reflexivity].
    assert (2 ^ 52 * 2 <= q' * 2 ^ e) by (apply Z.mul_le_mono_nonneg; lia).
    lia.
Qed.

(** Rounding keeps the sign. *)
Lemma nonneg_double_of_Z (z : Z) : nonneg (double_of_Z z) ↔ 0 <= z.
Proof.
  destruct (Z.le_gt_cases (Z.abs z) (2 ^ 53)) as [Hs|Hl].
  - rewrite (double_of_Z_safe z Hs). reflexivity.
  - destruct (double_of_Z_large z Hl) as [(m & Hm & ->)|[[Hz ->]|[Hz ->]]];
      cbn [nonneg]; [nia|lia|lia].
Qed.

(** An amount that is not negative arrives as an integer that is not
    negative, or as [Infinity]. *)
Lemma double_of_Z_amount (a : Z) :
  0 <= a → (∃ a', 0 <= a' ∧ double_of_Z a = Int a') ∨ double_of_Z a = Infinity.
Proof.
  intros Ha. destruct (Z.le_gt_cases (Z.abs a) (2 ^ 53)) as [Hs|Hl].
  - left. exists a. split; [exact Ha|]. exact (double_of_Z_safe a Hs).
  - destruct (double_of_Z_large a Hl) as [(m & Hm & ->)|[[Hz ->]|[Hz ->]]];
      [left|right; reflexivity|lia].
    exists (Z.sgn a * m). split; [nia|reflexivity].
Qed.

(** An exact result of at most [B] is stored as at most [B], for a bound
    within the exact range. *)
Lemma double_of_Z_below (z r B : Z) :
  z <= B → 0 <= B <= 2 ^ 53 → double_of_Z z = Int r → r <= B.
Proof.
  intros Hz HB Hr. destruct (Z.le_gt_cases (Z.abs z) (2 ^ 53)) as [Hs|Hl].
  - rewrite (double_of_Z_safe z Hs) in Hr. injection Hr as <-. exact Hz.
  - destruct (double_of_Z_large z Hl) as [(m & Hm & Hd)|[[Hp Hd]|[Hp Hd]]];
      rewrite Hd in Hr; [|discriminate|discriminate].
    injection Hr as <-. nia.
Qed.

(** A deduct of an amount that is not negative from a balance of at most
    [B] leaves at most [B], when the result is an integer at all. *)
Lemma num_sub_below (x : number) (a r B : Z) :
  0 <= a → 0 <= B <= 2 ^ 53 →
  (∀ b, x = Int b → b <= B) →
  num_sub x (double_of_Z a) = Int r → r <= B.
Proof.
  intros Ha HB Hx Hr.
  destruct (double_of_Z_amount a Ha) as [(a' & Ha' & Hd)|Hd]; rewrite Hd in Hr.
  - destruct x as [b| | | |]; cbn in Hr; try discriminate.
    + apply (double_of_Z_below (b - a') r B); [|exact HB|exact Hr].
      specialize (Hx b eq_refl). lia.
    + injection Hr as <-. lia.
  - destruct x; cbn in Hr; discriminate.
Qed.

End Numbers.

(** ** The credit ledger *)

Section Ledger.
Import Server.
Implicit Types (usersDb : gmap jsstring User) (u : User).

Lemma post_deduct_bounded usersDb (e : jsstring) u (a : Z) :
  e ≠ [] → usersDb !! e = Some u → neq_Infinity (credits u) = true →
  post_deduct (Some e) a usersDb
  = (Json200 (set_credits (num_sub (credits u) (double_of_Z a)) u),
     <[ e := set_credits (num_sub (credits u) (double_of_Z a)) u ]> usersDb).
Proof.
  intros Hne Hlook Hc. unfold post_deduct.
  destruct e as [|c cs]; [done|]. rewrite Hlook, Hc. reflexivity.
Qed.

Lemma num_sub_safe (b a : Z) :
  Z.abs a <= 2 ^ 53 → Z.abs (b - a) <= 2 ^ 53 →
  num_sub (Int b) (double_of_Z a) = Int (b - a).
Proof.
  intros Ha Hba. rewrite (double_of_Z_safe a Ha). cbn [num_sub].
  exact (double_of_Z_safe (b - a) Hba).
Qed.

Lemma post_deduct_finite usersDb (e : jsstring) u (b a : Z) :
  e ≠ [] → usersDb !! e = Some u → credits u = Int b →
  Z.abs a <= 2 ^ 53 → Z.abs (b - a) <= 2 ^ 53 →
  post_deduct (Some e) a usersDb
  = (Json200 (set_credits (Int (b - a)) u),
     <[ e := set_credits (Int (b - a)) u ]> usersDb).
Proof.
  intros Hne Hlook Hc Ha Hba.
  rewrite (post_deduct_bounded _ _ _ a Hne Hlook) by (rewrite Hc; reflexivity).
  rewrite Hc, (num_sub_safe b a Ha Hba). reflexivity.
Qed.

Lemma post_deduct_unbounded usersDb (e : jsstring) u (a : Z) :
  e ≠ [] → usersDb !! e = Some u → credits u = Infinity →
  post_deduct (Some e) a usersDb = (Json200 u, usersDb).
Proof.
  intros Hne Hlook Hc. unfold post_deduct.
  destruct e as [|c cs]; [done|]. rewrite Hlook, Hc. reflexivity.
Qed.

Lemma balance_insert usersDb (e : jsstring) u :
  balance e (<[ e := u ]> usersDb) = Some (credits u).
Proof. unfold balance. rewrite lookup_insert_eq. reflexivity. Qed.

Lemma example_db_lookup : example_db !! example_email = Some example_user.
Proof. vm_compute. reflexivity. Qed.

Lemma example_email_nonempty : example_email ≠ [].
Proof. discriminate. Qed.

(** C1, as the claim states it, fails: the account [GET /api/user] seeds
    with 20000 credits is left at -1 by a deduct of 20001; the handler has
    no floor. *)
Lemma deduct_can_go_negative :
  balance example_email example_db = Some (Int 20000)
  ∧ balance example_email (post_deduct (Some example_email) 20001 example_db).2
    = Some (Int (-1))
  ∧ ¬ nonneg (Int (-1)).
Proof.
  split; [vm_compute; reflexivity|]. split; [vm_compute; reflexivity|].
  intros H. apply H. reflexivity.
Qed.

(** C1 (amended): a deduct of the integer [a] on an account whose balance is
    the integer [b] leaves the double nearest to [b - a'], where [a'] is the
    double nearest to [a]. There is no floor: for an amount of magnitude up
    to 2^53 the result is at least zero exactly when [a <= b], and it is
    [b - a] itself when that is of magnitude up to 2^53. A deduct on an
    account whose balance is [Infinity] changes nothing. *)
Theorem deduct_balance usersDb (e : jsstring) u (a : Z) :
  e ≠ [] → usersDb !! e = Some u →
  match credits u with
  | Int b =>
      balance e (post_deduct (Some e) a usersDb).2
      = Some (num_sub (Int b) (double_of_Z a))
      ∧ (Z.abs a <= 2 ^ 53 →
         (nonneg (num_sub (Int b) (double_of_Z a)) ↔ a <= b)
         ∧ (Z.abs (b - a) <= 2 ^ 53 →
            num_sub (Int b) (double_of_Z a) = Int (b - a)))
  | Infinity =>
      (post_deduct (Some e) a usersDb).2 = usersDb
      ∧ balance e (post_deduct (Some e) a usersDb).2 = Some Infinity
  | x =>
      balance e (post_deduct (Some e) a usersDb).2
      = Some (num_sub x (double_of_Z a))
  end.
Proof.
  intros Hne Hlook. destruct (credits u) as [b| | | |] eqn:Hc.
  - rewrite (post_deduct_bounded _ _ _ a Hne Hlook) by (rewrite Hc; reflexivity).
    rewrite Hc. split; [apply balance_insert|]. intros Ha. split.
    + rewrite (double_of_Z_safe a Ha). cbn [num_sub].
      rewrite nonneg_double_of_Z. lia.
    + intros Hba. exact (num_sub_safe b a Ha Hba).
  - rewrite (post_deduct_unbounded _ _ _ a Hne Hlook Hc).
    split; [reflexivity|]. unfold balance. cbn. by rewrite Hlook; cbn; rewrite Hc.
  - rewrite (post_deduct_bounded _ _ _ a Hne Hlook) by (rewrite Hc; reflexivity).
    rewrite Hc. apply balance_insert.
  - rewrite (post_deduct_bounded _ _ _ a Hne Hlook) by (rewrite Hc; reflexivity).
    rewrite Hc. apply balance_insert.
  - rewrite (post_deduct_bounded _ _ _ a Hne Hlook) by (rewrite Hc; reflexivity).
    rewrite Hc. apply balance_insert.
Qed.

Lemma deduct_balance_witness :
  example_email ≠ []
  ∧ example_db !! example_email = Some example_user
  ∧ balance example_email (post_deduct (Some example_email) 11 example_db).2
    = Some (num_sub (Int 20000) (double_of_Z 11)).
Proof.
  split; [exact example_email_nonempty|].
  split; [exact example_db_lookup|].
  exact (proj1 (deduct_balance example_db example_email example_user 11
                  example_email_nonempty example_db_lookup)).
Defined.

(** C10, as the claim states it, fails beyond the integers a double holds
    exactly: a refund of 2^53 - 20000 brings the seeded account to 2^53, and
    a further deduct of -1 leaves it at 2^53, which is neither [b - a] nor
    above [b]. *)
Lemma deduct_of_minus_one_lost :
  balance example_email
    (post_deduct (Some example_email) (20000 - 2 ^ 53) example_db).2
  = Some (Int (2 ^ 53))
  ∧ balance example_email
      (post_deduct (Some example_email) (-1)
         (post_deduct (Some example_email) (20000 - 2 ^ 53) example_db).2).2
    = Some (Int (2 ^ 53))
  ∧ Int (2 ^ 53) ≠ Int (2 ^ 53 - -1)
  ∧ ¬ 2 ^ 53 < 2 ^ 53.
Proof.
  split; [vm_compute; reflexivity|]. split; [vm_compute; reflexivity|].
  split; [discriminate|lia].
Qed.

(** C10 (amended): on an existing account whose balance is the integer [b],
    the deduct handler stores, for every integer amount [a] whatever its
    sign or size, the double nearest to [b - a'], where [a'] is the double
    nearest to [a]. Whenever [a] and [b - a] are of magnitude up to 2^53
    that is exactly [b - a], and there a negative amount strictly increases
    the balance. *)
Theorem deduct_applies_amount_unchecked usersDb (e : jsstring) u (b a : Z) :
  e ≠ [] → usersDb !! e = Some u → credits u = Int b →
  post_deduct (Some e) a usersDb
  = (Json200 (set_credits (num_sub (Int b) (double_of_Z a)) u),
     <[ e := set_credits (num_sub (Int b) (double_of_Z a)) u ]> usersDb)
  ∧ (Z.abs a <= 2 ^ 53 → Z.abs (b - a) <= 2 ^ 53 →
     balance e (post_deduct (Some e) a usersDb).2 = Some (Int (b - a))
     ∧ (a < 0 → b < b - a)).
Proof.
  intros Hne Hlook Hc.
  rewrite (post_deduct_bounded _ _ _ a Hne Hlook) by (rewrite Hc; reflexivity).
  rewrite Hc. split; [reflexivity|]. intros Ha Hba.
  rewrite (num_sub_safe b a Ha Hba).
  split; [apply balance_insert | lia].
Qed.

Lemma deduct_applies_amount_unchecked_witness :
  example_email ≠ []
  ∧ example_db !! example_email = Some example_user
  ∧ credits example_user = Int 20000
  ∧ Z.abs (-5) <= 2 ^ 53 ∧ Z.abs (20000 - -5) <= 2 ^ 53
  ∧ balance example_email (post_deduct (Some example_email) (-5) example_db).2
    = Some (Int (20000 - -5)).
Proof.
  assert (H1 : Z.abs (-5) <= 2 ^ 53) by (vm_compute; discriminate).
  assert (H2 : Z.abs (20000 - -5) <= 2 ^ 53) by (vm_compute; discriminate).
  split; [exact example_email_nonempty|].
  split; [exact example_db_lookup|].
  split; [reflexivity|]. split; [exact H1|]. split; [exact H2|].
  exact (proj1 (proj2 (deduct_applies_amount_unchecked example_db
                         example_email example_user 20000 (-5)
                         example_email_nonempty example_db_lookup eq_refl)
                 H1 H2)).
Defined.

End Ledger.

(** ** The encoder *)

Section Encoder.
Implicit Types (hd tl buffer bytes : list Z) (off : nat) (v r : Z).

Lemma setUint8_app off v hd tl :
  (off < length hd)%nat →
  setUint8 off v (hd ++ tl) = Some (<[ off := v mod 256 ]> hd ++ tl).
Proof.
  intros Hlt. unfold setUint8.
  rewrite decide_True by (rewrite length_app; lia).
  by rewrite insert_app_l.
Qed.

Lemma setUint16_app off v hd tl :
  (off + 1 < length hd)%nat →
  setUint16 off v (hd ++ tl)
  = Some (<[ (off + 1)%nat := le_byte 1 v mod 256 ]>
            (<[ off := le_byte 0 v mod 256 ]> hd) ++ tl).
Proof.
  intros Hlt. unfold setUint16.
  rewrite setUint8_app by lia. cbn [mbind option_bind].
  rewrite setUint8_app by (rewrite length_insert; lia). reflexivity.
Qed.

Lemma setUint32_app off v hd tl :
  (off + 3 < length hd)%nat →
  setUint32 off v (hd ++ tl)
  = Some (<[ (off + 3)%nat := le_byte 3 v mod 256 ]>
            (<[ (off + 2)%nat := le_byte 2 v mod 256 ]>
               (<[ (off + 1)%nat := le_byte 1 v mod 256 ]>
                  (<[ off := le_byte 0 v mod 256 ]> hd))) ++ tl).
Proof.
  intros Hlt. unfold setUint32.
  rewrite setUint8_app by lia. cbn [mbind option_bind].
  rewrite setUint8_app by (rewrite length_insert; lia). cbn [mbind option_bind].
  rewrite setUint8_app by (rewrite !length_insert; lia). cbn [mbind option_bind].
  rewrite setUint8_app by (rewrite !length_insert; lia). reflexivity.
Qed.

Lemma writeString4_app off (a b c d : N) hd tl :
  (off + 3 < length hd)%nat →
  writeString off [a; b; c; d] (hd ++ tl)
  = Some (<[ S (S (S off)) := Z.of_N d mod 256 ]>
            (<[ S (S off) := Z.of_N c mod 256 ]>
               (<[ S off := Z.of_N b mod 256 ]>
                  (<[ off := Z.of_N a mod 256 ]> hd))) ++ tl).
Proof.
  intros Hlt. cbn [writeString].
  rewrite setUint8_app by lia. cbn [mbind option_bind].
  rewrite setUint8_app by (rewrite length_insert; lia). cbn [mbind option_bind].
  rewrite setUint8_app by (rewrite !length_insert; lia). cbn [mbind option_bind].
  rewrite setUint8_app by (rewrite !length_insert; lia). reflexivity.
Qed.

Lemma set_from_app hd bytes :
  set_from (length hd) bytes (hd ++ replicate (length bytes) 0)
  = Some (hd ++ bytes).
Proof.
  unfold set_from.
  rewrite decide_True by (rewrite length_app, length_replicate; lia).
  rewrite take_app_length.
  rewrite drop_ge by (rewrite length_app, length_replicate; lia).
  by rewrite app_nil_r.
Qed.

Lemma wav_buffer_layout (base64 binaryString : jsstring) r :
  atob base64 = Some binaryString →
  wav_buffer base64 r
  = Some (wav_header (length binaryString) r ++ pcm_bytes binaryString).
Proof.
  intros Hatob. unfold wav_buffer. rewrite Hatob. cbn [mbind option_bind].
  fold (pcm_bytes binaryString).
  assert (Hlen : length (pcm_bytes binaryString) = length binaryString)
    by apply length_fmap.
  set (bytes := pcm_bytes binaryString) in *.
  rewrite replicate_add.
  change (lit "RIFF") with [82; 73; 70; 70]%N.
  change (lit "WAVE") with [87; 65; 86; 69]%N.
  change (lit "fmt ") with [102; 109; 116; 32]%N.
  change (lit "data") with [100; 97; 116; 97]%N.
  repeat
    (first [ rewrite writeString4_app by (rewrite ?length_insert, length_replicate; lia)
           | rewrite setUint32_app by (rewrite ?length_insert, length_replicate; lia)
           | rewrite setUint16_app by (rewrite ?length_insert, length_replicate; lia) ];
     cbn [mbind option_bind]).
  match goal with
  | |- set_from 44 bytes (?h ++ _) = _ =>
      change 44%nat with (length h) at 1
  end.
  rewrite set_from_app. rewrite <- Hlen. reflexivity.
Qed.

Lemma le_byte_div k v :
  0 <= k → le_byte k v mod 256 = (v / 2 ^ (8 * k)) mod 256.
Proof.
  intros Hk. unfold le_byte. change 255 with (Z.ones 8).
  rewrite Z.land_ones by lia. rewrite Z.shiftr_div_pow2 by lia.
  change (2 ^ 8) with 256. apply Z.mod_mod. lia.
Qed.

Lemma u16le_value v :
  le_byte 0 v mod 256 + 256 * (le_byte 1 v mod 256) = v mod 2 ^ 16.
Proof.
  rewrite !le_byte_div by lia.
  change (2 ^ (8 * 0)) with 1. change (2 ^ (8 * 1)) with 256.
  change (2 ^ 16) with 65536.
  Z.div_mod_to_equations. lia.
Qed.

Lemma u32le_value v :
  le_byte 0 v mod 256 + 256 * (le_byte 1 v mod 256)
    + 65536 * (le_byte 2 v mod 256) + 16777216 * (le_byte 3 v mod 256)
  = v mod 2 ^ 32.
Proof.
  rewrite !le_byte_div by lia.
  change (2 ^ (8 * 0)) with 1. change (2 ^ (8 * 1)) with 256.
  change (2 ^ (8 * 2)) with 65536. change (2 ^ (8 * 3)) with 16777216.
  change (2 ^ 32) with 4294967296.
  Z.div_mod_to_equations. lia.
Qed.

Lemma header_fields (n : nat) r bytes :
  let buffer := wav_header n r ++ bytes in
  length (wav_header n r) = 44%nat
  ∧ getUint32 4 buffer = Some ((36 + Z.of_nat n) mod 2 ^ 32)
  ∧ getUint16 20 buffer = Some 1
  ∧ getUint16 22 buffer = Some 1
  ∧ getUint32 24 buffer = Some (r mod 2 ^ 32)
  ∧ getUint32 28 buffer = Some ((r * 2) mod 2 ^ 32)
  ∧ getUint16 32 buffer = Some 2
  ∧ getUint16 34 buffer = Some 16
  ∧ getUint32 40 buffer = Some (Z.of_nat n mod 2 ^ 32).
Proof.
  cbv zeta. split; [reflexivity|].
  unfold getUint32, getUint16, wav_header, u32le, u16le.
  cbn [app lookup list_lookup Nat.add mbind option_bind].
  rewrite !u32le_value. repeat split; reflexivity.
Qed.

Lemma atob_wav_buffer (base64 : jsstring) r :
  is_Some (atob base64) → is_Some (wav_buffer base64 r).
Proof.
  intros [binaryString H]. rewrite (wav_buffer_layout _ _ _ H). by eexists.
Qed.

Lemma createWavUrl_Some (base64 : jsstring) r (blobs0 : list Blob) buffer :
  wav_buffer base64 r = Some buffer →
  createWavUrl base64 r blobs0
  = Some (length blobs0, blobs0 ++ [mkBlob buffer (lit "audio/wav")]).
Proof. intros H. unfold createWavUrl. rewrite H. reflexivity. Qed.

(** C2, as the claim states it, fails: a field of four bytes holds its value
    modulo 2^32 only. For the valid payload [AAEC] and the sample rate
    4294967296 the bytes 24..27 read 0. *)
Lemma sample_rate_field_wraps :
  atob (lit "AAEC") = Some [0; 1; 2]%N
  ∧ wav_buffer (lit "AAEC") 4294967296 ≫= getUint32 24 = Some 0
  ∧ wav_buffer (lit "AAEC") 4294967296 ≫= getUint32 24 ≠ Some 4294967296.
Proof.
  split; [vm_compute; reflexivity|]. split; [vm_compute; reflexivity|].
  vm_compute. discriminate.
Qed.

(** C2 (amended): for every base64 input that [atob] decodes to [L] bytes
    and every integer sample rate [r], [createWavUrl] registers a container
    of exactly [L + 44] bytes, the decoded bytes after a header of 44 bytes
    that holds, little-endian: the chunk size [36 + L] modulo 2^32 at bytes
    4..7, the format tag 1 at 20..21, the channel count 1 at 22..23, [r]
    modulo 2^32 at 24..27, the byte rate [r * 2] modulo 2^32 at 28..31, the
    block align 2 at 32..33, 16 bits per sample at 34..35 and [L] modulo
    2^32 at 40..43. The four fields hold [36 + L], [r], [r * 2] and [L]
    themselves whenever these lie in [0, 2^32). *)
Theorem createWavUrl_container (base64 binaryString : jsstring) r
    (blobs0 : list Blob) :
  atob base64 = Some binaryString →
  let L := Z.of_nat (length binaryString) in
  ∃ url blobs' buffer,
    createWavUrl base64 r blobs0 = Some (url, blobs')
    ∧ blobs' !! url = Some (mkBlob buffer (lit "audio/wav"))
    ∧ Z.of_nat (length buffer) = L + 44
    ∧ drop 44 buffer = pcm_bytes binaryString
    ∧ getUint32 4 buffer = Some ((36 + L) mod 2 ^ 32)
    ∧ getUint16 20 buffer = Some 1
    ∧ getUint16 22 buffer = Some 1
    ∧ getUint32 24 buffer = Some (r mod 2 ^ 32)
    ∧ getUint32 28 buffer = Some ((r * 2) mod 2 ^ 32)
    ∧ getUint16 32 buffer = Some 2
    ∧ getUint16 34 buffer = Some 16
    ∧ getUint32 40 buffer = Some (L mod 2 ^ 32)
    ∧ (36 + L < 2 ^ 32 → getUint32 4 buffer = Some (36 + L))
    ∧ (0 <= r < 2 ^ 32 → getUint32 24 buffer = Some r)
    ∧ (0 <= r * 2 < 2 ^ 32 → getUint32 28 buffer = Some (r * 2))
    ∧ (L < 2 ^ 32 → getUint32 40 buffer = Some L).
Proof.
  intros Hatob L.
  pose proof (wav_buffer_layout base64 binaryString r Hatob) as Hbuf.
  destruct (header_fields (length binaryString) r (pcm_bytes binaryString))
    as (Hlen & H4 & H20 & H22 & H24 & H28 & H32 & H34 & H40).
  eexists _, _, _. split; [exact (createWavUrl_Some _ _ blobs0 _ Hbuf)|].
  split; [by rewrite lookup_app_r, Nat.sub_diag by lia|].
  split.
  { rewrite length_app, Hlen. unfold pcm_bytes. rewrite length_fmap.
    subst L. lia. }
  split.
  { change 44%nat with (length (wav_header (length binaryString) r)).
    by rewrite drop_app_length. }
  repeat (split; [assumption|]).
  fold L in H4, H40. rewrite H4, H24, H28, H40.
  repeat split; intros; rewrite Z.mod_small; (reflexivity || lia).
Qed.

Lemma createWavUrl_container_witness :
  atob (lit "AAEC") = Some [0; 1; 2]%N
  ∧ ∃ url blobs' buffer,
      createWavUrl (lit "AAEC") 24000 [] = Some (url, blobs')
      ∧ blobs' !! url = Some (mkBlob buffer (lit "audio/wav"))
      ∧ Z.of_nat (length buffer) = 3 + 44
      ∧ getUint32 24 buffer = Some 24000
      ∧ getUint32 28 buffer = Some 48000
      ∧ getUint32 40 buffer = Some 3.
Proof.
  assert (Hatob : atob (lit "AAEC") = Some [0; 1; 2]%N)
    by (vm_compute; reflexivity).
  split; [exact Hatob|].
  destruct (createWavUrl_container (lit "AAEC") [0; 1; 2]%N 24000 [] Hatob)
    as (url & blobs' & buffer & Hc & Hb & Hl & _ & _ & _ & _ & H24 & H28
        & _ & _ & H40 & _).
  exists url, blobs', buffer. repeat split; assumption.
Defined.

(** C8: two invocations of [createWavUrl] on the same payload and sample
    rate, in whatever state the session's object URLs are, either both
    throw or register byte-identical blobs (under URLs of their own). *)
Theorem createWavUrl_deterministic (base64 : jsstring) r
    (blobs1 blobs2 : list Blob) :
  match createWavUrl base64 r blobs1, createWavUrl base64 r blobs2 with
  | Some (url1, blobs1'), Some (url2, blobs2') =>
      ∃ blob, blobs1' !! url1 = Some blob ∧ blobs2' !! url2 = Some blob
              ∧ wav_buffer base64 r = Some (blob_bytes blob)
  | None, None => wav_buffer base64 r = None
  | _, _ => False
  end.
Proof.
  unfold createWavUrl. destruct (wav_buffer base64 r) as [buffer|]; cbn.
  - eexists. rewrite !lookup_app_r, !Nat.sub_diag by lia. repeat split.
  - reflexivity.
Qed.

End Encoder.

(** ** Composition and the checks *)

Section Pipeline.
Implicit Types (s : AppState) (u : User) (voice : Voice) (t : jsstring).

Lemma blank_nil : blank [] = true.
Proof. reflexivity. Qed.

Lemma nonblank_len t : blank t = false → 1 <= len t.
Proof.
  destruct t as [|c t]; [discriminate|]. intros _. unfold len. cbn. lia.
Qed.

(** The four ways the checks end. *)
Lemma checks_blank rid u voice t s :
  blank t = true →
  generateSpeech_checks rid u voice t s
  = setLoadingStatus None (setIsGenerating false
      (setError (Some (lit "Text is empty.")) s)).
Proof. intros H. unfold generateSpeech_checks. by rewrite H. Qed.

Lemma checks_too_long rid u voice t s :
  blank t = false → MAX_CHARS < len t →
  generateSpeech_checks rid u voice t s
  = setLoadingStatus None (setIsGenerating false (setError (Some msg_limit) s)).
Proof.
  intros Hb Hl. unfold generateSpeech_checks. rewrite Hb.
  by rewrite (proj2 (Z.ltb_lt _ _) Hl).
Qed.

Lemma checks_insufficient rid u voice t s :
  blank t = false → len t <= MAX_CHARS → affordable u t = false →
  generateSpeech_checks rid u voice t s
  = setLoadingStatus None (setIsGenerating false
      (setShowMonetization true
         (setError (Some (msg_insufficient (len t) (credits u))) s))).
Proof.
  intros Hb Hl Ha. unfold generateSpeech_checks. rewrite Hb.
  rewrite (proj2 (Z.ltb_ge _ _) Hl).
  unfold affordable in Ha. apply negb_false_iff in Ha. by rewrite Ha.
Qed.

Lemma checks_pass rid u voice t s :
  blank t = false → len t <= MAX_CHARS → affordable u t = true →
  generateSpeech_checks rid u voice t s
  = setPending (<[ rid := AwaitRace u voice t ]> (pending s))
      (issue (CallSynthesis t (voice_id voice))
         (setAbortControllerRef (Some rid)
            (setError None
               (setLoadingStatus (Some (lit "Generating AI voice..."))
                  (setIsGenerating true s))))).
Proof.
  intros Hb Hl Ha. unfold generateSpeech_checks. rewrite Hb.
  rewrite (proj2 (Z.ltb_ge _ _) Hl).
  unfold affordable in Ha. apply negb_true_iff in Ha. rewrite Ha.
  reflexivity.
Qed.

Lemma compose_tts s u reply :
  user s = Some u → mode s = tts →
  compose_and_check s reply
  = generateSpeech_checks (nextId s) u (selectedVoice s) (text s)
      (setNextId (S (nextId s)) s).
Proof.
  intros Hu Hm. unfold compose_and_check. rewrite Hm.
  cbn [run foldl step]. unfold generateSpeech. rewrite Hu, Hm.
  reflexivity.
Qed.

Lemma compose_audio s u audio reply :
  user s = Some u → mode s ≠ tts → uploadedAudio s = Some audio →
  blank (default [] reply) = false →
  ∃ s1,
    compose_and_check s reply
    = generateSpeech_checks (nextId s) u (selectedVoice s) (default [] reply) s1
    ∧ calls s1 = CallText (text_prompt (mode s) (targetLanguage s)) audio :: calls s
    ∧ history s1 = history s ∧ user s1 = user s
    ∧ pending s1 !! nextId s = None.
Proof.
  intros Hu Hm Ha Hb. eexists. split.
  - unfold compose_and_check.
    destruct (mode s) eqn:Em; [done| |];
      cbn [run foldl step]; unfold generateSpeech; rewrite Hu, Em, Ha;
      (rewrite decide_True by done); app_simpl;
      rewrite lookup_insert_eq; unfold resume_text; rewrite Hb;
      reflexivity.
  - app_simpl. rewrite lookup_delete_eq. repeat split.
Qed.

Lemma compose_audio_blank s u audio reply :
  user s = Some u → mode s ≠ tts → uploadedAudio s = Some audio →
  blank (default [] reply) = true →
  let s' := compose_and_check s reply in
  error s' = Some (lit "Failed to process audio file. Could not extract speech from audio.")
  ∧ calls s' = CallText (text_prompt (mode s) (targetLanguage s)) audio :: calls s
  ∧ history s' = history s.
Proof.
  intros Hu Hm Ha Hb. unfold compose_and_check.
  destruct (mode s) eqn:Em; [done| |];
    cbn [run foldl step]; unfold generateSpeech; rewrite Hu, Em, Ha;
    (rewrite decide_True by done); app_simpl;
    rewrite lookup_insert_eq; unfold resume_text; rewrite Hb;
    app_simpl; rewrite ?Em; repeat split.
Qed.

Lemma reaches_checks s u reply :
  user s = Some u →
  (mode s ≠ tts → is_Some (uploadedAudio s)) →
  (mode s ≠ tts → blank (composed_text s reply) = false) →
  ∃ s1,
    compose_and_check s reply
    = generateSpeech_checks (nextId s) u (selectedVoice s)
        (composed_text s reply) s1
    ∧ calls s1 = composition_calls s ++ calls s
    ∧ history s1 = history s ∧ user s1 = user s.
Proof.
  intros Hu Hup Hb. destruct (decide (mode s = tts)) as [Hm|Hm].
  - exists (setNextId (S (nextId s)) s).
    rewrite (compose_tts s u reply Hu Hm).
    unfold composed_text, composition_calls. rewrite Hm. repeat split.
  - destruct (Hup Hm) as [audio Ha]. specialize (Hb Hm).
    assert (Ht : composed_text s reply = default [] reply)
      by (unfold composed_text; destruct (mode s); done).
    rewrite Ht in *.
    destruct (compose_audio s u audio reply Hu Hm Ha Hb)
      as (s1 & Heq & Hc & Hh & Hus & _).
    exists s1. rewrite Heq, Hc. unfold composition_calls. rewrite Ha.
    destruct (mode s); done.
Qed.

Lemma msg_insufficient_neq_limit need have : msg_insufficient need have ≠ msg_limit.
Proof.
  intros H. apply (f_equal head) in H. vm_compute in H. discriminate.
Qed.

(** C6: in every mode, once composition has produced the text (after the
    reply of the transcription or translation call, if the mode has one), a
    text of 20001 characters ends the run with an error, the message of the
    length check when the text is not blank, and with no synthesis call; a
    text of exactly 20000 characters that is not blank is not rejected by
    the length check, and the synthesis call is issued when the balance
    covers it. *)
Theorem length_ceiling_after_composition s u reply :
  user s = Some u →
  (mode s ≠ tts → is_Some (uploadedAudio s)) →
  let t := composed_text s reply in
  let s' := compose_and_check s reply in
  (len t = 20001 →
     is_Some (error s')
     ∧ (blank t = false → error s' = Some msg_limit)
     ∧ calls s' = composition_calls s ++ calls s
     ∧ history s' = history s)
  ∧ (len t = 20000 → blank t = false →
     error s' ≠ Some msg_limit
     ∧ (affordable u t = true →
        error s' = None
        ∧ calls s'
          = CallSynthesis t (voice_id (selectedVoice s))
              :: composition_calls s ++ calls s)).
Proof.
  intros Hu Hup t s'. subst t s'. split.
  - intros Hlen. destruct (blank (composed_text s reply)) eqn:Hb.
    + destruct (decide (mode s = tts)) as [Hm|Hm].
      * destruct (reaches_checks s u reply Hu Hup) as (s1 & -> & Hc & Hh & _);
          [done|].
        rewrite checks_blank by done. app_simpl. rewrite Hc, Hh.
        repeat split; [by eexists | done].
      * destruct (Hup Hm) as [audio Ha].
        assert (Ht : composed_text s reply = default [] reply)
          by (unfold composed_text; destruct (mode s); done).
        rewrite Ht in Hb.
        destruct (compose_audio_blank s u audio reply Hu Hm Ha Hb)
          as (He & Hc & Hh).
        rewrite He, Hc, Hh. unfold composition_calls. rewrite Ha.
        repeat split; [by eexists | done | by destruct (mode s)].
    + destruct (reaches_checks s u reply Hu Hup) as (s1 & -> & Hc & Hh & _);
        [done|].
      rewrite checks_too_long by (done || (unfold MAX_CHARS; lia)).
      app_simpl. rewrite Hc, Hh. repeat split; by eexists.
  - intros Hlen Hb.
    destruct (reaches_checks s u reply Hu Hup) as (s1 & -> & Hc & Hh & _);
      [done|].
    destruct (affordable u (composed_text s reply)) eqn:Ha.
    + rewrite checks_pass by (done || (unfold MAX_CHARS; lia)).
      app_simpl. rewrite Hc. split; done.
    + rewrite checks_insufficient by (done || (unfold MAX_CHARS; lia)).
      app_simpl. split; [|done].
      intros H. exact (msg_insufficient_neq_limit _ _ (inj Some _ _ H)).
Qed.


Lemma length_ceiling_after_composition_witness :
  user example_dubbing = Some example_user
  ∧ mode example_dubbing = dubbing
  ∧ is_Some (uploadedAudio example_dubbing)
  ∧ len (letters 20001) = 20001
  ∧ error (compose_and_check example_dubbing (Some (letters 20001)))
    = Some msg_limit
  ∧ calls (compose_and_check example_dubbing (Some (letters 20001)))
    = composition_calls example_dubbing ++ calls example_dubbing
  ∧ len (letters 20000) = 20000
  ∧ calls (compose_and_check example_dubbing (Some (letters 20000)))
    = CallSynthesis (letters 20000) (lit "Puck")
        :: composition_calls example_dubbing ++ calls example_dubbing.
Proof.
  assert (Hu : user example_dubbing = Some example_user) by reflexivity.
  assert (Ha : is_Some (uploadedAudio example_dubbing))
    by (eexists; reflexivity).
  assert (Hl : len (letters 20001) = 20001) by (vm_compute; reflexivity).
  assert (Hb : blank (letters 20001) = false) by (vm_compute; reflexivity).
  assert (Hl' : len (letters 20000) = 20000) by (vm_compute; reflexivity).
  assert (Hb' : blank (letters 20000) = false) by (vm_compute; reflexivity).
  assert (Hp : affordable example_user (letters 20000) = true)
    by (vm_compute; reflexivity).
  destruct (length_ceiling_after_composition example_dubbing example_user
              (Some (letters 20001)) Hu (λ _, Ha)) as [H _].
  destruct (H Hl) as (_ & He & Hc & _).
  destruct (length_ceiling_after_composition example_dubbing example_user
              (Some (letters 20000)) Hu (λ _, Ha)) as [_ H'].
  destruct (H' Hl' Hb') as (_ & H'').
  destruct (H'' Hp) as (_ & Hc').
  split; [exact Hu|]. split; [reflexivity|]. split; [exact Ha|].
  split; [exact Hl|]. split; [exact (He Hb)|]. split; [exact Hc|].
  split; [exact Hl' | exact Hc'].
Defined.

(** The credit check, balance by balance, once the text is not blank and
    within the ceiling: an integer below the character count, [-Infinity]
    and [null] (which counts as 0) end the run with the insufficient-credit
    message and the upgrade prompt, and no synthesis call is issued; an
    integer that covers the count, [Infinity] and [NaN] let the synthesis
    call go out. The message is given for integers above -10^21, which
    [string_of_number] writes as the platform does. *)
Lemma credit_check_cases s u reply :
  user s = Some u →
  (mode s ≠ tts → is_Some (uploadedAudio s)) →
  let t := composed_text s reply in
  let s' := compose_and_check s reply in
  blank t = false → len t <= MAX_CHARS →
  let refused :=
    error s' = Some (msg_insufficient (len t) (credits u))
    ∧ showMonetization s' = true ∧ isGenerating s' = false
    ∧ calls s' = composition_calls s ++ calls s
    ∧ history s' = history s in
  let proceeds :=
    error s' = None ∧ isGenerating s' = true
    ∧ calls s'
      = CallSynthesis t (voice_id (selectedVoice s))
          :: composition_calls s ++ calls s in
  match credits u with
  | Int c => (c < len t → - 10 ^ 21 < c → refused) ∧ (len t <= c → proceeds)
  | Infinity | NaN => proceeds
  | NegInfinity | Null => refused
  end.
Proof.
  intros Hu Hup t s' Hb Hlen. subst t s'.
  pose proof (nonblank_len _ Hb) as Hpos.
  destruct (reaches_checks s u reply Hu Hup) as (s1 & -> & Hc & Hh & _);
    [done|].
  assert (Hrefused : affordable u (composed_text s reply) = false →
    error (generateSpeech_checks (nextId s) u (selectedVoice s)
             (composed_text s reply) s1)
    = Some (msg_insufficient (len (composed_text s reply)) (credits u))
    ∧ showMonetization (generateSpeech_checks (nextId s) u (selectedVoice s)
             (composed_text s reply) s1) = true
    ∧ isGenerating (generateSpeech_checks (nextId s) u (selectedVoice s)
             (composed_text s reply) s1) = false
    ∧ calls (generateSpeech_checks (nextId s) u (selectedVoice s)
             (composed_text s reply) s1) = composition_calls s ++ calls s
    ∧ history (generateSpeech_checks (nextId s) u (selectedVoice s)
             (composed_text s reply) s1) = history s).
  { intros Ha. rewrite checks_insufficient by done.
    app_simpl. rewrite Hc, Hh. repeat split. }
  assert (Hproceeds : affordable u (composed_text s reply) = true →
    error (generateSpeech_checks (nextId s) u (selectedVoice s)
             (composed_text s reply) s1) = None
    ∧ isGenerating (generateSpeech_checks (nextId s) u (selectedVoice s)
             (composed_text s reply) s1) = true
    ∧ calls (generateSpeech_checks (nextId s) u (selectedVoice s)
             (composed_text s reply) s1)
      = CallSynthesis (composed_text s reply) (voice_id (selectedVoice s))
          :: composition_calls s ++ calls s).
  { intros Ha. rewrite checks_pass by done. app_simpl. rewrite Hc. done. }
  cbv zeta. unfold affordable in Hrefused, Hproceeds.
  destruct (credits u) as [c| | | |] eqn:Ec; cbn [neq_Infinity num_ltb andb negb] in *.
  - split.
    + intros Hlt _. apply Hrefused. by rewrite (proj2 (Z.ltb_lt _ _) Hlt).
    + intros Hge. apply Hproceeds. by rewrite (proj2 (Z.ltb_ge _ _) Hge).
  - by apply Hproceeds.
  - by apply Hrefused.
  - by apply Hproceeds.
  - apply Hrefused. by rewrite (proj2 (Z.ltb_lt 0 _)) by lia.
Qed.

(** What arrives of an unbounded balance lets no text pass that is not
    blank. *)
Lemma unbounded_balance_over_json u t :
  credits u = Infinity → blank t = false →
  credits (json_user u) = Null ∧ affordable (json_user u) t = false.
Proof.
  intros Hc Hb. pose proof (nonblank_len _ Hb) as Hpos.
  unfold affordable, json_user. cbn [credits set_credits]. rewrite Hc.
  cbn [json_number neq_Infinity num_ltb andb negb].
  split; [reflexivity|]. by rewrite (proj2 (Z.ltb_lt 0 _)) by lia.
Qed.


End Pipeline.

(** ** Settlement of the synthesis call and cancellation *)

Section Settlement.
Implicit Types (s : AppState) (u : User) (voice : Voice) (t : jsstring).

Lemma catch_block_frame err s :
  history (catch_block err s) = history s
  ∧ calls (catch_block err s) = calls s
  ∧ user (catch_block err s) = user s
  ∧ audioUrl (catch_block err s) = audioUrl s
  ∧ blobs (catch_block err s) = blobs s
  ∧ pending (catch_block err s) = pending s.
Proof.
  unfold catch_block. destruct (is_abort err), (is_quota err); repeat split.
Qed.

Lemma abort_not_recognised : is_abort (Error (lit "AbortError")) = false.
Proof. vm_compute. reflexivity. Qed.

Lemma catch_block_abort s :
  catch_block (Error (lit "AbortError")) s = setError (Some (lit "AbortError")) s.
Proof. reflexivity. Qed.

Lemma example_in_flight_pending :
  pending example_in_flight !! 0%nat
  = Some (AwaitRace example_user (selectedVoice example_session)
            (lit "Hello world")).
Proof. vm_compute. reflexivity. Qed.

(** C3, as the claim states it, fails: the response to [Hello world] carries
    the non-empty payload [!], which [atob] rejects; the deduct call for 11
    characters has been issued by then, and no history entry is added. *)
Lemma undecodable_payload_charges_without_entry :
  atob (lit "!") = None
  ∧ history
      (run [Click_generate;
            Synthesis_settled 0 (Fulfilled (Some (lit "!"))) (lit "k3j9x0q1z") 1]
         example_session) = []
  ∧ calls
      (run [Click_generate;
            Synthesis_settled 0 (Fulfilled (Some (lit "!"))) (lit "k3j9x0q1z") 1]
         example_session)
    = [CallDeduct 11; CallSynthesis (lit "Hello world") (lit "Puck")].
Proof. vm_compute. repeat split. Qed.

(** C3 (amended): when the provider's response to a request in flight
    carries a non-empty payload that is valid base64, exactly one history
    entry is put in front of the history (the text cut at 80 characters, the
    voice's name, the URL of the encoded container), and exactly one deduct
    call is issued, for the character count of the composed text, unless the
    balance the request captured is [Infinity], in which case no deduct call
    is issued and the entry is added all the same. *)
Theorem successful_synthesis s rid u voice t (payload : jsstring) rnd now :
  pending s !! rid = Some (AwaitRace u voice t) →
  payload ≠ [] → is_Some (atob payload) →
  let s' := step (Synthesis_settled rid (Fulfilled (Some payload)) rnd now) s in
  ∃ url buffer,
    history s'
    = {| item_id := rnd; item_text := truncated t;
         item_voice := voice_name voice; item_audioUrl := url;
         item_timestamp := now |} :: history s
    ∧ calls s'
      = (if neq_Infinity (credits u) then [CallDeduct (len t)] else [])
          ++ calls s
    ∧ audioUrl s' = Some url
    ∧ wav_buffer payload 24000 = Some buffer
    ∧ blobs s' !! url = Some (mkBlob buffer (lit "audio/wav"))
    ∧ error s' = error s
    ∧ pending s' !! rid = None.
Proof.
  intros Hp Hne Hb64 s'. subst s'.
  destruct (atob_wav_buffer payload 24000 Hb64) as [buffer Hbuf].
  exists (length (blobs s)), buffer.
  cbn [step]. rewrite Hp. unfold resume_race, on_response.
  destruct payload as [|c cs]; [done|].
  app_simpl.
  assert (Hblobs : ∀ c0, blobs (if neq_Infinity (credits u) then issue c0 (setPending (delete rid (pending s)) s) else setPending (delete rid (pending s)) s) = blobs s)
    by (intros; destruct (neq_Infinity _); reflexivity).
  rewrite Hblobs.
  change default_sampleRate with 24000.
  rewrite (createWavUrl_Some _ _ _ _ Hbuf).
  unfold finally_block. app_simpl.
  rewrite lookup_app_r, Nat.sub_diag by lia.
  destruct (neq_Infinity (credits u)); app_simpl;
    rewrite lookup_delete_eq; repeat split; exact Hbuf.
Qed.


Lemma successful_synthesis_witness :
  lit "AAEC" ≠ []
  ∧ is_Some (atob (lit "AAEC"))
  ∧ ∃ url,
      history (step (Synthesis_settled 0 (Fulfilled (Some (lit "AAEC")))
                       (lit "k3j9x0q1z") 1) example_in_flight)
      = [ {| item_id := lit "k3j9x0q1z"; item_text := lit "Hello world";
             item_voice := lit "VoxAI Frank (Friend Style)";
             item_audioUrl := url; item_timestamp := 1 |} ]
      ∧ calls (step (Synthesis_settled 0 (Fulfilled (Some (lit "AAEC")))
                       (lit "k3j9x0q1z") 1) example_in_flight)
        = [CallDeduct 11; CallSynthesis (lit "Hello world") (lit "Puck")].
Proof.
  assert (Hne : lit "AAEC" ≠ []) by discriminate.
  assert (Hv : is_Some (atob (lit "AAEC")))
    by (exists [0; 1; 2]%N; vm_compute; reflexivity).
  split; [exact Hne|]. split; [exact Hv|].
  destruct (successful_synthesis example_in_flight 0 example_user
              (selectedVoice example_session) (lit "Hello world")
              (lit "AAEC") (lit "k3j9x0q1z") 1
              example_in_flight_pending Hne Hv)
    as (url & buffer & Hh & Hc & _).
  exists url. split; [exact Hh | exact Hc].
Defined.

(** *** Request numbers *)

Lemma catch_block_bookkeeping err s :
  nextId (catch_block err s) = nextId s
  ∧ pending (catch_block err s) = pending s.
Proof.
  unfold catch_block. destruct (is_abort err), (is_quota err); split; reflexivity.
Qed.

Lemma on_response_bookkeeping u voice t a rnd now s :
  nextId (on_response u voice t a rnd now s) = nextId s
  ∧ pending (on_response u voice t a rnd now s) = pending s.
Proof.
  unfold on_response. destruct a as [[|c cs]|];
    try apply catch_block_bookkeeping.
  destruct (neq_Infinity (credits u));
    (destruct (createWavUrl _ _ _) as [[url blobs']|];
     [split; reflexivity|]);
    match goal with
    | |- context [catch_block ?e ?x] =>
        destruct (catch_block_bookkeeping e x) as [-> ->]
    end; split; reflexivity.
Qed.

Lemma resume_race_bookkeeping rid u voice t r rnd now s :
  nextId (resume_race rid u voice t r rnd now s) = nextId s
  ∧ pending (resume_race rid u voice t r rnd now s) = delete rid (pending s).
Proof.
  unfold resume_race, finally_block. app_simpl.
  destruct r as [a|err].
  - destruct (on_response_bookkeeping u voice t a rnd now
                (setPending (delete rid (pending s)) s)) as [-> ->].
    split; reflexivity.
  - destruct (catch_block_bookkeeping err
                (setPending (delete rid (pending s)) s)) as [-> ->].
    split; reflexivity.
Qed.

Lemma checks_bookkeeping rid u voice t s :
  nextId (generateSpeech_checks rid u voice t s) = nextId s
  ∧ (pending (generateSpeech_checks rid u voice t s) = pending s
     ∨ pending (generateSpeech_checks rid u voice t s)
       = <[ rid := AwaitRace u voice t ]> (pending s)).
Proof.
  unfold generateSpeech_checks.
  destruct (blank t), (MAX_CHARS <? len t),
    (neq_Infinity (credits u) && num_ltb (credits u) (len t));
    split; auto.
Qed.

(** A request that has settled is never suspended again. *)
Lemma step_keeps_settled e s (rid : nat) :
  (rid < nextId s)%nat → pending s !! rid = None →
  (rid < nextId (step e s))%nat ∧ pending (step e s) !! rid = None.
Proof.
  intros Hlt Hnone. destruct e; cbn [step]; try (split; assumption).
  - (* generateSpeech *)
    unfold generateSpeech. destruct (user s) as [u|]; [|split; assumption].
    destruct (decide (mode s ≠ tts)).
    + destruct (uploadedAudio s); [|split; assumption].
      app_simpl. split; [lia|]. rewrite lookup_insert_ne by lia. done.
    + destruct (checks_bookkeeping (nextId s) u (selectedVoice s) (text s)
                  (setNextId (S (nextId s)) s)) as [-> [-> | ->]];
        app_simpl; (split; [lia|]); [done|].
      rewrite lookup_insert_ne by lia. done.
  - (* handleCancel *)
    unfold handleCancel. destruct (abortControllerRef s) as [c|];
      [|split; assumption].
    destruct (pending s !! c) as [[u voice|u voice t]|];
      try (split; assumption).
    destruct (resume_race_bookkeeping c u voice t
                (Rejected (Error (lit "AbortError"))) [] 0
                (setLoadingStatus None (setIsGenerating false
                   (setAbortControllerRef None s)))) as [-> ->].
    app_simpl. split; [done|].
    destruct (decide (c = rid)) as [->|];
      [apply lookup_delete_eq | by rewrite lookup_delete_ne].
  - (* handleFileUpload *)
    unfold handleFileUpload. destruct files0 as [f|]; [|split; assumption].
    destruct (_ <? _); split; assumption.
  - (* the text call settles *)
    destruct (pending s !! rid0) as [[u voice|u voice t]|] eqn:Hp;
      try (split; assumption).
    assert (rid0 ≠ rid) by congruence.
    unfold resume_text. app_simpl.
    destruct r as [err|reply]; app_simpl.
    { split; [done|]. by rewrite lookup_delete_ne. }
    destruct (blank (default [] reply)); app_simpl.
    { split; [done|]. by rewrite lookup_delete_ne. }
    destruct (checks_bookkeeping rid0 u voice (default [] reply)
                (setText (default [] reply)
                   (setPending (delete rid0 (pending s)) s)))
      as [-> [-> | ->]]; app_simpl; (split; [done|]).
    + by rewrite lookup_delete_ne.
    + rewrite lookup_insert_ne by done. by rewrite lookup_delete_ne.
  - (* the synthesis call settles *)
    destruct (pending s !! rid0) as [[u voice|u voice t]|] eqn:Hp;
      try (split; assumption).
    destruct (resume_race_bookkeeping rid0 u voice t r rnd now s) as [-> ->].
    split; [done|].
    destruct (decide (rid0 = rid)) as [->|];
      [apply lookup_delete_eq | by rewrite lookup_delete_ne].
Qed.

Lemma run_keeps_settled es s (rid : nat) :
  (rid < nextId s)%nat → pending s !! rid = None →
  (rid < nextId (run es s))%nat ∧ pending (run es s) !! rid = None.
Proof.
  revert s. induction es as [|e es IH]; intros s Hlt Hnone; [done|].
  cbn [run foldl]. destruct (step_keeps_settled e s rid Hlt Hnone).
  by apply IH.
Qed.

Lemma step_well_numbered e s :
  well_numbered s → well_numbered (step e s).
Proof.
  intros Hw. destruct e; cbn [step]; try exact Hw.
  - unfold generateSpeech. destruct (user s) as [u|]; [|exact Hw].
    destruct (decide (mode s ≠ tts)).
    + destruct (uploadedAudio s); [|exact Hw].
      intros rid. app_simpl. intros Hge.
      rewrite lookup_insert_ne by lia. apply Hw. lia.
    + intros rid.
      destruct (checks_bookkeeping (nextId s) u (selectedVoice s) (text s)
                  (setNextId (S (nextId s)) s)) as [-> [-> | ->]];
        app_simpl; intros Hge.
      * apply Hw. lia.
      * rewrite lookup_insert_ne by lia. apply Hw. lia.
  - unfold handleCancel. destruct (abortControllerRef s) as [c|];
      [|exact Hw].
    destruct (pending s !! c) as [[u voice|u voice t]|];
      try exact Hw.
    intros rid.
    destruct (resume_race_bookkeeping c u voice t
                (Rejected (Error (lit "AbortError"))) [] 0
                (setLoadingStatus None (setIsGenerating false
                   (setAbortControllerRef None s)))) as [-> ->].
    app_simpl. intros Hge.
    destruct (decide (c = rid)) as [->|];
      [apply lookup_delete_eq | rewrite lookup_delete_ne by done; by apply Hw].
  - unfold handleFileUpload. destruct files0 as [f|]; [|exact Hw].
    destruct (_ <? _); exact Hw.
  - destruct (pending s !! rid) as [[u voice|u voice t]|] eqn:Hp;
      try exact Hw.
    assert (Hrid : (rid < nextId s)%nat).
    { destruct (decide (rid < nextId s)%nat) as [|Hn]; [done|].
      rewrite Hw in Hp by lia. done. }
    intros rid'. unfold resume_text. app_simpl.
    destruct r as [err|reply]; app_simpl.
    { intros Hge. rewrite lookup_delete_ne by lia. by apply Hw. }
    destruct (blank (default [] reply)); app_simpl.
    { intros Hge. rewrite lookup_delete_ne by lia. by apply Hw. }
    destruct (checks_bookkeeping rid u voice (default [] reply)
                (setText (default [] reply)
                   (setPending (delete rid (pending s)) s)))
      as [-> [-> | ->]]; app_simpl; intros Hge.
    + rewrite lookup_delete_ne by lia. by apply Hw.
    + rewrite lookup_insert_ne by lia.
      rewrite lookup_delete_ne by lia. by apply Hw.
  - destruct (pending s !! rid) as [[u voice|u voice t]|] eqn:Hp;
      try exact Hw.
    intros rid'.
    destruct (resume_race_bookkeeping rid u voice t r rnd now s) as [-> ->].
    intros Hge.
    destruct (decide (rid = rid')) as [->|];
      [apply lookup_delete_eq | rewrite lookup_delete_ne by done; by apply Hw].
Qed.

Lemma run_well_numbered es s :
  well_numbered s → well_numbered (run es s).
Proof.
  revert s. induction es as [|e es IH]; intros s Hw; [done|].
  cbn [run foldl]. apply IH. by apply step_well_numbered.
Qed.

(** In every state a session reaches, the number of a suspended request
    is below the counter. *)
Lemma suspended_below_counter es (rid : nat) :
  is_Some (pending (run es initial) !! rid) →
  (rid < nextId (run es initial))%nat.
Proof.
  intros [p Hp].
  destruct (decide (rid < nextId (run es initial))%nat) as [|Hn]; [done|].
  rewrite (run_well_numbered es initial) in Hp; [done| |lia].
  intros rid' _. apply lookup_empty.
Qed.
(** C4: when the user cancels while the synthesis call of the tracked
    request is in flight, the cancellation adds no history entry, issues no
    call (so no deduct), and leaves the cached account, the player source
    and the registered blobs as they were; whatever the call settles to, and
    after whatever other events, its settlement changes nothing at all. The
    request's number is one the counter has handed out, as it is in every
    state a session reaches ([suspended_below_counter]). *)
Theorem cancel_discards_result s rid u voice t :
  pending s !! rid = Some (AwaitRace u voice t) →
  abortControllerRef s = Some rid →
  (rid < nextId s)%nat →
  let s' := step Click_cancel s in
  history s' = history s ∧ calls s' = calls s ∧ user s' = user s
  ∧ audioUrl s' = audioUrl s ∧ blobs s' = blobs s
  ∧ ∀ es r rnd now,
      step (Synthesis_settled rid r rnd now) (run es s') = run es s'.
Proof.
  intros Hp Hr Hlt s'.
  assert (Hs' : pending s' !! rid = None ∧ nextId s' = nextId s
                ∧ history s' = history s ∧ calls s' = calls s
                ∧ user s' = user s ∧ audioUrl s' = audioUrl s
                ∧ blobs s' = blobs s).
  { subst s'. cbn [step]. unfold handleCancel. rewrite Hr, Hp.
    unfold resume_race, finally_block. app_simpl.
    set (s1 := setPending _ _).
    destruct (catch_block_frame (Error (lit "AbortError")) s1)
      as (Hh & Hc & Hu & Ha & Hb & Hpe).
    destruct (catch_block_bookkeeping (Error (lit "AbortError")) s1)
      as [Hn _].
    rewrite Hpe, Hn, Hh, Hc, Hu, Ha, Hb. subst s1. app_simpl.
    by rewrite lookup_delete_eq. }
  destruct Hs' as (Hnone & Hn & Hh & Hc & Hu & Ha & Hb).
  repeat (split; [assumption|]).
  intros es r rnd now. cbn [step].
  destruct (run_keeps_settled es s' rid) as [_ ->]; [lia | done | done].
Qed.

Lemma cancel_discards_result_witness :
  abortControllerRef example_in_flight = Some 0%nat
  ∧ (0 < nextId example_in_flight)%nat
  ∧ history (step Click_cancel example_in_flight) = []
  ∧ calls (step Click_cancel example_in_flight)
    = [CallSynthesis (lit "Hello world") (lit "Puck")]
  ∧ step (Synthesis_settled 0 (Fulfilled (Some (lit "AAEC")))
            (lit "k3j9x0q1z") 1) (step Click_cancel example_in_flight)
    = step Click_cancel example_in_flight.
Proof.
  assert (Hlt : (0 < nextId example_in_flight)%nat) by (vm_compute; lia).
  split; [reflexivity|]. split; [exact Hlt|].
  destruct (cancel_discards_result example_in_flight 0 example_user
              (selectedVoice example_session) (lit "Hello world")
              example_in_flight_pending eq_refl Hlt)
    as (Hh & Hc & _ & _ & _ & Hd).
  split; [exact Hh|]. split; [exact Hc|]. exact (Hd [] _ _ _).
Defined.

(** The error a cancellation leaves on screen, for every request in
    flight. *)
Lemma handleCancel_error s rid u voice t :
  pending s !! rid = Some (AwaitRace u voice t) →
  abortControllerRef s = Some rid →
  error (handleCancel s) = Some (lit "AbortError").
Proof.
  intros Hp Hr. unfold handleCancel. rewrite Hr, Hp.
  unfold resume_race. rewrite catch_block_abort. reflexivity.
Qed.

(** C5 (the code departs from the claim): the rejection of a cancelled race
    is [new Error('AbortError')], whose name is [Error] and whose message
    has no lower-case [abort]; the test of the [catch] block does not
    recognise it, and a click on Stop while [Hello world] is being
    synthesised leaves the message [AbortError] in the error state. *)
Theorem cancellation_sets_error :
  is_abort (Error (lit "AbortError")) = false
  ∧ includes (lit "AbortError") (lit "abort") = false
  ∧ name (Error (lit "AbortError")) = lit "Error"
  ∧ error (run [Click_generate] example_session) = None
  ∧ error (run [Click_generate; Click_cancel] example_session)
    = Some (lit "AbortError").
Proof. vm_compute. repeat split. Qed.

End Settlement.

(** ** The uploaded clip *)

Section Upload.
Implicit Types (s : AppState) (f : File).

(** C9, as the claim states it, fails: with a clip uploaded, selecting the
    dubbing mode leaves the clip in the state. *)
Lemma mode_switch_keeps_upload :
  uploadedAudio
    (run [File_chosen (Some example_file); File_loaded example_file;
          Click_mode dubbing] initial)
  = Some {| file := example_file; base64 := lit "AAEC";
            mimeType := lit "audio/wav" |}
  ∧ uploadedAudio
      (run [File_chosen (Some example_file); File_loaded example_file;
            Click_mode dubbing] initial) ≠ None.
Proof. split; [reflexivity | discriminate]. Qed.

(** C9 (amended): the uploaded clip is held until a new file selection
    replaces it: every mode switch leaves it as it is, and the selection of
    a file of at most 50 MiB, once read, stores that file in its place. *)
Theorem upload_held_until_replaced s f :
  file_size f <= 50 * 1024 * 1024 →
  (∀ m, uploadedAudio (step (Click_mode m) s) = uploadedAudio s)
  ∧ handleFileUpload (Some f) s = (s, Some f)
  ∧ uploadedAudio (run [File_chosen (Some f); File_loaded f] s)
    = Some {| file := f; base64 := file_base64 f; mimeType := file_type f |}.
Proof.
  intros Hsize. split; [reflexivity|].
  assert (H : handleFileUpload (Some f) s = (s, Some f)).
  { unfold handleFileUpload. by rewrite (proj2 (Z.ltb_ge _ _) Hsize). }
  split; [exact H|]. cbn [run foldl step]. rewrite H. reflexivity.
Qed.

Lemma upload_held_until_replaced_witness :
  file_size example_file <= 50 * 1024 * 1024
  ∧ uploadedAudio (step (Click_mode voice_changer) example_dubbing)
    = uploadedAudio example_dubbing
  ∧ uploadedAudio
      (run [File_chosen (Some example_file); File_loaded example_file] initial)
    = Some {| file := example_file; base64 := lit "AAEC";
              mimeType := lit "audio/wav" |}.
Proof.
  assert (Hs : file_size example_file <= 50 * 1024 * 1024)
    by (vm_compute; discriminate).
  split; [exact Hs|].
  destruct (upload_held_until_replaced example_dubbing example_file Hs)
    as (Hm & _ & _).
  split; [exact (Hm voice_changer)|].
  exact (proj2 (proj2 (upload_held_until_replaced initial example_file Hs))).
Defined.

End Upload.

(** * Further properties *)

(** ** The service under sequences of requests *)

Section Service.
Import Server.
Implicit Types (usersDb : gmap jsstring User) (u : User) (c : option jsstring).

Lemma truthy_Some c : truthy c = true → ∃ e : jsstring, c = Some e ∧ e ≠ [].
Proof. destruct c as [[|x e]|]; try discriminate. intros _. by eexists. Qed.

Lemma get_user_known usersDb (e : jsstring) u :
  e ≠ [] → usersDb !! e = Some u →
  get_user (Some e) usersDb = (Json200 u, usersDb).
Proof.
  intros Hne H. destruct e as [|x e]; [done|]. unfold get_user. by rewrite H.
Qed.

Lemma get_user_seeds usersDb (e : jsstring) :
  e ≠ [] → usersDb !! e = None → inherited e = false →
  get_user (Some e) usersDb
  = (Json200 {| email := e;
                credits := if includes SPECIAL_EMAILS e
                           then Infinity else Int 20000;
                isPremium := includes SPECIAL_EMAILS e |},
     <[ e := {| email := e;
                credits := if includes SPECIAL_EMAILS e
                           then Infinity else Int 20000;
                isPremium := includes SPECIAL_EMAILS e |} ]> usersDb).
Proof.
  intros Hne H Hi. destruct e as [|x e]; [done|]. unfold get_user.
  by rewrite H, Hi.
Qed.

Lemma get_user_inherited usersDb (e : jsstring) :
  usersDb !! e = None → inherited e = true →
  get_user (Some e) usersDb = (Json200_inherited, usersDb).
Proof.
  intros H Hi. destruct e as [|x e]; [discriminate|]. unfold get_user.
  by rewrite H, Hi.
Qed.

(** X1: asking for the current user twice is the same as asking once: the
    second [GET /api/user] returns the same response and leaves the
    database as the first left it. *)
Theorem get_user_idempotent c usersDb :
  get_user c (get_user c usersDb).2 = get_user c usersDb.
Proof.
  destruct c as [[|x e]|]; try reflexivity.
  destruct (usersDb !! (x :: e)) as [u|] eqn:H.
  - rewrite (get_user_known usersDb (x :: e) u) by done.
    by apply get_user_known.
  - destruct (inherited (x :: e)) eqn:Hi.
    + rewrite (get_user_inherited usersDb (x :: e) H Hi). cbn [snd].
      exact (get_user_inherited usersDb (x :: e) H Hi).
    + rewrite (get_user_seeds usersDb (x :: e)) by done. cbn [snd].
      apply get_user_known; [done | apply lookup_insert_eq].
Qed.

(** X2: when a deduct succeeds, a [GET /api/user] of the same session right
    after it returns the very account the deduct returned, and changes
    nothing. *)
Theorem get_user_after_deduct c (amount : Z) usersDb u' :
  (post_deduct c amount usersDb).1 = Json200 u' →
  get_user c (post_deduct c amount usersDb).2
  = (Json200 u', (post_deduct c amount usersDb).2).
Proof.
  destruct c as [[|x e]|]; try discriminate.
  unfold post_deduct. destruct (usersDb !! (x :: e)) as [u|] eqn:H;
    [|destruct (inherited (x :: e)); discriminate].
  destruct (neq_Infinity (credits u)); cbn [fst snd]; intros [= <-].
  - apply get_user_known; [done | apply lookup_insert_eq].
  - by apply get_user_known.
Qed.

Lemma get_user_after_deduct_witness :
  (post_deduct (Some example_email) 11 example_db).1
  = Json200 (set_credits (Int 19989) example_user)
  ∧ get_user (Some example_email)
      (post_deduct (Some example_email) 11 example_db).2
    = (Json200 (set_credits (Int 19989) example_user),
       (post_deduct (Some example_email) 11 example_db).2).
Proof.
  assert (H : (post_deduct (Some example_email) 11 example_db).1
              = Json200 (set_credits (Int 19989) example_user))
    by (vm_compute; reflexivity).
  split; [exact H|].
  exact (get_user_after_deduct (Some example_email) 11 example_db _ H).
Defined.

(** X3: a request without a session cookie (or with an empty one), a
    deduct for an identity the database holds no record of, and a
    [GET /api/user] for such an identity that is a name of
    [Object.prototype], leave the database untouched; in particular a
    deduct never creates an account. They are answered with status 401,
    except where the identity is a name of [Object.prototype]: the handler
    finds the inherited value under it and answers with status 200 and no
    account. *)
Theorem no_session_no_change (r : Request) usersDb :
  match r with
  | GetUser c =>
      truthy c = false
      ∨ ∃ e : jsstring, c = Some e ∧ usersDb !! e = None ∧ inherited e = true
  | PostDeduct c _ =>
      truthy c = false ∨ ∃ e : jsstring, c = Some e ∧ usersDb !! e = None
  end →
  ∃ msg,
    serve r usersDb
    = (if inherited (default [] (session_of r))
       then Json200_inherited else Json401 msg, usersDb).
Proof.
  destruct r as [c|c amount]; cbn [serve session_of].
  - intros [H | (e & -> & H & Hi)].
    + destruct c as [[|x e]|]; try discriminate; by eexists.
    + rewrite (get_user_inherited usersDb e H Hi).
      cbn [default from_option id]. rewrite Hi. by eexists.
  - intros [H | (e & -> & H)].
    + destruct c as [[|x e]|]; try discriminate; by eexists.
    + unfold post_deduct. destruct e as [|x e]; [by eexists|].
      rewrite H. cbn [default from_option id].
      destruct (inherited (x :: e)); by eexists.
Qed.

Lemma no_session_no_change_witness :
  example_db !! lit "nobody@example.com" = None
  ∧ example_db !! lit "toString" = None
  ∧ (∃ msg,
       serve (PostDeduct (Some (lit "nobody@example.com")) 5) example_db
       = (if inherited (default [] (session_of
               (PostDeduct (Some (lit "nobody@example.com")) 5)))
          then Json200_inherited else Json401 msg, example_db))
  ∧ (∃ msg,
       serve (PostDeduct (Some (lit "toString")) 5) example_db
       = (if inherited (default [] (session_of
               (PostDeduct (Some (lit "toString")) 5)))
          then Json200_inherited else Json401 msg, example_db)).
Proof.
  assert (H : example_db !! lit "nobody@example.com" = None)
    by (vm_compute; reflexivity).
  assert (H' : example_db !! lit "toString" = None)
    by (vm_compute; reflexivity).
  split; [exact H|]. split; [exact H'|]. split.
  - apply (no_session_no_change
             (PostDeduct (Some (lit "nobody@example.com")) 5) example_db).
    right. exists (lit "nobody@example.com"). split; [reflexivity | exact H].
  - apply (no_session_no_change
             (PostDeduct (Some (lit "toString")) 5) example_db).
    right. exists (lit "toString"). split; [reflexivity | exact H'].
Defined.

(** X4: a request touches no account but the one of its own session: the
    record under every other email is the same before and after. *)
Theorem serve_frame (r : Request) usersDb (e' : jsstring) :
  session_of r ≠ Some e' →
  (serve r usersDb).2 !! e' = usersDb !! e'.
Proof.
  intros Hne. destruct r as [c|c amount]; cbn in *;
    destruct c as [[|x e]|]; try reflexivity.
  - unfold get_user. destruct (usersDb !! (x :: e)); [reflexivity|].
    destruct (inherited (x :: e)); [reflexivity|].
    cbn. apply lookup_insert_ne. congruence.
  - unfold post_deduct. destruct (usersDb !! (x :: e)) as [u|];
      [|destruct (inherited (x :: e)); reflexivity].
    destruct (neq_Infinity (credits u)); [|reflexivity].
    cbn. apply lookup_insert_ne. congruence.
Qed.

Lemma serve_frame_witness :
  session_of (PostDeduct (Some (lit "other@example.com")) 7)
  ≠ Some example_email
  ∧ (serve (PostDeduct (Some (lit "other@example.com")) 7) example_db).2
      !! example_email
    = example_db !! example_email.
Proof.
  assert (H : session_of (PostDeduct (Some (lit "other@example.com")) 7)
              ≠ Some example_email) by discriminate.
  split; [exact H|].
  exact (serve_frame (PostDeduct (Some (lit "other@example.com")) 7)
           example_db example_email H).
Defined.

Lemma deduct_all_cons c (a : Z) amounts usersDb :
  deduct_all c (a :: amounts) usersDb
  = deduct_all c amounts (post_deduct c a usersDb).2.
Proof. reflexivity. Qed.

Lemma deduct_all_sum (e : jsstring) (amounts : list Z) usersDb u :
  e ≠ [] → usersDb !! e = Some u →
  match credits u with
  | Int b =>
      within_safe b amounts →
      balance e (deduct_all (Some e) amounts usersDb)
      = Some (Int (b - total amounts))
  | Infinity =>
      balance e (deduct_all (Some e) amounts usersDb) = Some Infinity
  | _ => True
  end.
Proof.
  intros Hne. revert usersDb u.
  induction amounts as [|a amounts IH]; intros usersDb u Hu.
  - unfold balance, deduct_all. cbn. rewrite Hu. cbn.
    destruct (credits u); try done. by rewrite Z.sub_0_r.
  - rewrite deduct_all_cons. destruct (credits u) as [b| | | |] eqn:Hc;
      [| |done|done|done].
    + intros (Ha & Hba & Hrest).
      rewrite (post_deduct_finite _ _ _ b a Hne Hu Hc Ha Hba). cbn [snd].
      pose proof (IH _ (set_credits (Int (b - a)) u)
                    (lookup_insert_eq usersDb e _)) as H.
      cbn [credits set_credits] in H. rewrite (H Hrest).
      change (total (a :: amounts)) with (a + total amounts).
      by rewrite Z.sub_add_distr.
    + rewrite (post_deduct_unbounded _ _ _ a Hne Hu Hc). cbn [snd].
      pose proof (IH _ u Hu) as H. by rewrite Hc in H.
Qed.

(** X5: deducts add up as long as the amounts and the balances they leave
    stay within the integers a double holds exactly (magnitude up to 2^53):
    after deducts of the amounts [amounts] for one session, an integer
    balance [b] has become [b] minus their sum. A balance of [Infinity] is
    still [Infinity], whatever the amounts. *)
Theorem deduct_all_balance (e : jsstring) (amounts : list Z) usersDb u :
  e ≠ [] → usersDb !! e = Some u →
  match credits u with
  | Int b =>
      within_safe b amounts →
      balance e (deduct_all (Some e) amounts usersDb)
      = Some (Int (b - total amounts))
  | Infinity =>
      balance e (deduct_all (Some e) amounts usersDb) = Some Infinity
  | _ => True
  end.
Proof. apply deduct_all_sum. Qed.

Lemma deduct_all_balance_witness :
  example_email ≠ []
  ∧ example_db !! example_email = Some example_user
  ∧ within_safe 20000 [11; 5; 100]
  ∧ balance example_email
      (deduct_all (Some example_email) [11; 5; 100] example_db)
    = Some (Int (20000 - total [11; 5; 100])).
Proof.
  assert (Hs : within_safe 20000 [11; 5; 100]) by (cbn; lia).
  split; [exact example_email_nonempty|].
  split; [exact example_db_lookup|]. split; [exact Hs|].
  exact (deduct_all_balance example_email [11; 5; 100] example_db
           example_user example_email_nonempty example_db_lookup Hs).
Defined.

Lemma serve_all_cons (r : Request) rs usersDb :
  serve_all (r :: rs) usersDb = serve_all rs (serve r usersDb).2.
Proof. reflexivity. Qed.

Lemma double_of_Z_not_Null (z : Z) : double_of_Z z ≠ Null.
Proof.
  unfold double_of_Z.
  repeat match goal with |- context [if ?c then _ else _] => destruct c end;
    discriminate.
Qed.

Lemma num_sub_not_Null (x y : number) : num_sub x y ≠ Null.
Proof.
  destruct x, y; cbn; try discriminate; apply double_of_Z_not_Null.
Qed.

Lemma serve_ledger_ok (r : Request) usersDb :
  ledger_ok usersDb → ledger_ok (serve r usersDb).2.
Proof.
  intros Hok. destruct r as [c|c amount]; cbn [serve];
    destruct c as [[|x e]|]; try exact Hok.
  - unfold get_user. destruct (usersDb !! (x :: e)) as [u|]; [exact Hok|].
    destruct (inherited (x :: e)) eqn:Hi; [exact Hok|].
    cbn [snd]. intros e' u'.
    destruct (decide (e' = x :: e)) as [->|Hne].
    + rewrite lookup_insert_eq. intros [= <-]. cbn.
      split; [done|]. split; [done|]. split; [done|]. split; [done|].
      unfold includes. case_bool_decide; [|done]. split; done.
    + rewrite lookup_insert_ne by done. apply Hok.
  - unfold post_deduct. destruct (usersDb !! (x :: e)) as [u|] eqn:Hu;
      [|destruct (inherited (x :: e)); exact Hok].
    destruct (neq_Infinity (credits u)) eqn:Hc; cbn [snd]; [|exact Hok].
    intros e' u'. destruct (decide (e' = x :: e)) as [->|Hne].
    + rewrite lookup_insert_eq. intros [= <-].
      destruct (Hok _ _ Hu) as (H1 & H2 & H3 & H4 & H5 & H6). cbn.
      split; [done|]. split; [done|]. split; [done|]. split; [done|].
      split; [|apply num_sub_not_Null].
      intros Hin. rewrite (H5 Hin) in Hc. discriminate.
    + rewrite lookup_insert_ne by done. apply Hok.
Qed.

Lemma serve_all_ledger_ok (rs : list Request) usersDb :
  ledger_ok usersDb → ledger_ok (serve_all rs usersDb).
Proof.
  revert usersDb. induction rs as [|r rs IH]; intros usersDb Hok; [done|].
  rewrite serve_all_cons. by apply IH, serve_ledger_ok.
Qed.

Lemma ledger_ok_empty : ledger_ok ∅.
Proof. intros e u H. by rewrite lookup_empty in H. Qed.

(** X6: whatever requests the service has served since it started, every
    record of the database sits under its own email, which is not empty
    and not a name of [Object.prototype]; it is premium exactly when that
    email is on the allow-list, its balance is [Infinity] in that case, and
    no balance is [null]. *)
Theorem ledger_invariant (rs : list Request) : ledger_ok (serve_all rs ∅).
Proof. apply serve_all_ledger_ok, ledger_ok_empty. Qed.

Lemma serve_below_seed (r : Request) usersDb :
  Forall (λ a, 0 <= a) (deduct_amounts [r]) →
  below_seed usersDb → below_seed (serve r usersDb).2.
Proof.
  intros Ha Hok. destruct r as [c|c amount]; cbn [serve];
    destruct c as [[|x e]|]; try exact Hok.
  - unfold get_user. destruct (usersDb !! (x :: e)) as [u|]; [exact Hok|].
    destruct (inherited (x :: e)); [exact Hok|].
    cbn [snd]. intros e' u' b.
    destruct (decide (e' = x :: e)) as [->|Hne].
    + rewrite lookup_insert_eq. intros [= <-]. cbn.
      destruct (includes _ _); [done|]. intros [= <-]. lia.
    + rewrite lookup_insert_ne by done. apply Hok.
  - unfold post_deduct. destruct (usersDb !! (x :: e)) as [u|] eqn:Hu;
      [|destruct (inherited (x :: e)); exact Hok].
    destruct (neq_Infinity (credits u)); cbn [snd]; [|exact Hok].
    intros e' u' b'. destruct (decide (e' = x :: e)) as [->|Hne].
    + rewrite lookup_insert_eq. intros [= <-]. cbn [credits set_credits].
      apply Forall_cons_1 in Ha as [Ha _].
      apply (num_sub_below (credits u) amount b' 20000 Ha); [lia|].
      intros b Hb. exact (Hok _ _ _ Hu Hb).
    + rewrite lookup_insert_ne by done. apply Hok.
Qed.

(** X7: as long as no deduct carries a negative amount, no integer balance
    ever exceeds the seed of 20000. *)
Theorem balance_never_above_seed (rs : list Request) (e : jsstring) u (b : Z) :
  Forall (λ a, 0 <= a) (deduct_amounts rs) →
  serve_all rs ∅ !! e = Some u → credits u = Int b → b <= 20000.
Proof.
  intros Ha. revert e u b. change (below_seed (serve_all rs ∅)).
  assert (H0 : below_seed (∅ : gmap jsstring User))
    by (intros e u b H; by rewrite lookup_empty in H).
  revert H0 Ha. generalize (∅ : gmap jsstring User).
  induction rs as [|r rs IH]; intros usersDb H0 Ha; [done|].
  rewrite serve_all_cons. apply IH.
  - apply serve_below_seed; [|done].
    destruct r as [c|c amount]; [constructor|].
    cbn in Ha |- *. apply Forall_cons_1 in Ha as [Ha _]. by constructor.
  - destruct r as [c|c amount]; [exact Ha|].
    cbn in Ha. by apply Forall_cons_1 in Ha as [_ Ha].
Qed.

Lemma balance_never_above_seed_witness :
  Forall (λ a, 0 <= a)
    (deduct_amounts [GetUser (Some example_email);
                     PostDeduct (Some example_email) 11])
  ∧ serve_all [GetUser (Some example_email);
               PostDeduct (Some example_email) 11] ∅ !! example_email
    = Some (set_credits (Int 19989) example_user)
  ∧ 19989 <= 20000.
Proof.
  assert (Ha : Forall (λ a, 0 <= a)
                 (deduct_amounts [GetUser (Some example_email);
                                  PostDeduct (Some example_email) 11]))
    by (repeat constructor; lia).
  assert (Hl : serve_all [GetUser (Some example_email);
                          PostDeduct (Some example_email) 11] ∅
                 !! example_email
               = Some (set_credits (Int 19989) example_user))
    by (vm_compute; reflexivity).
  split; [exact Ha|]. split; [exact Hl|].
  exact (balance_never_above_seed _ example_email _ 19989 Ha Hl eq_refl).
Defined.

(** X8: the first [GET /api/user] of an identity that is not a name of
    [Object.prototype], followed by deducts of the amounts [amounts], leaves
    the balance at [Infinity] when the email is on the allow-list, and
    otherwise at 20000 minus their sum, as long as the amounts and the
    balances they leave are of magnitude up to 2^53. *)
Theorem fresh_account_balance (e : jsstring) (amounts : list Z) usersDb :
  e ≠ [] → inherited e = false → usersDb !! e = None →
  (includes SPECIAL_EMAILS e = false → within_safe 20000 amounts) →
  balance e (serve_all (GetUser (Some e) :: (PostDeduct (Some e) <$> amounts))
               usersDb)
  = Some (if includes SPECIAL_EMAILS e then Infinity
          else Int (20000 - total amounts)).
Proof.
  intros Hne Hi Hnone Hsafe. rewrite serve_all_cons. cbn [serve].
  rewrite (get_user_seeds usersDb e Hne Hnone Hi). cbn [snd].
  pose proof (deduct_all_sum e amounts _ _ Hne
                (lookup_insert_eq usersDb e
                   {| email := e;
                      credits := if includes SPECIAL_EMAILS e
                                 then Infinity else Int 20000;
                      isPremium := includes SPECIAL_EMAILS e |})) as H.
  unfold deduct_all in H. cbn [credits] in H.
  destruct (includes SPECIAL_EMAILS e); [exact H|]. exact (H (Hsafe eq_refl)).
Qed.

Lemma fresh_account_balance_witness :
  lit "new@example.com" ≠ []
  ∧ inherited (lit "new@example.com") = false
  ∧ example_db !! lit "new@example.com" = None
  ∧ within_safe 20000 [11; 5]
  ∧ balance (lit "new@example.com")
      (serve_all (GetUser (Some (lit "new@example.com"))
                  :: (PostDeduct (Some (lit "new@example.com"))
                        <$> [11; 5])) example_db)
    = Some (if includes SPECIAL_EMAILS (lit "new@example.com") then Infinity
            else Int (20000 - total [11; 5])).
Proof.
  assert (Hne : lit "new@example.com" ≠ []) by discriminate.
  assert (Hi : inherited (lit "new@example.com") = false)
    by (vm_compute; reflexivity).
  assert (Hn : example_db !! lit "new@example.com" = None)
    by (vm_compute; reflexivity).
  assert (Hs : within_safe 20000 [11; 5]) by (cbn; lia).
  split; [exact Hne|]. split; [exact Hi|]. split; [exact Hn|].
  split; [exact Hs|].
  exact (fresh_account_balance (lit "new@example.com") [11; 5] example_db
           Hne Hi Hn (λ _, Hs)).
Defined.

End Service.

(** ** More on the container *)

Section Container.
Implicit Types (buffer : list Z) (r : Z).

Lemma wav_buffer_None (base64 : jsstring) r :
  atob base64 = None → wav_buffer base64 r = None.
Proof. intros H. unfold wav_buffer. by rewrite H. Qed.

(** X9: [createWavUrl] throws exactly when [atob] rejects the payload: for
    a payload that is valid base64 no write ever leaves the buffer. *)
Theorem createWavUrl_fails_iff (base64 : jsstring) r (blobs0 : list Blob) :
  createWavUrl base64 r blobs0 = None ↔ atob base64 = None.
Proof.
  split.
  - intros H. destruct (atob base64) as [bin|] eqn:Ha; [|done].
    rewrite (createWavUrl_Some _ _ _ _ (wav_buffer_layout _ _ r Ha)) in H.
    discriminate.
  - intros H. unfold createWavUrl. by rewrite (wav_buffer_None _ _ H).
Qed.

(** X10: every container starts with the chunk tags of a WAV file: [RIFF]
    at bytes 0..3, [WAVE] at 8..11, [fmt ] at 12..15 with the chunk size 16
    at 16..19, and [data] at 36..39, whatever the payload and the sample
    rate. *)
Theorem container_chunk_tags (base64 binaryString : jsstring) r :
  atob base64 = Some binaryString →
  ∃ buffer,
    wav_buffer base64 r = Some buffer
    ∧ take 4 buffer = Z.of_N <$> lit "RIFF"
    ∧ take 8 (drop 8 buffer) = Z.of_N <$> lit "WAVEfmt "
    ∧ getUint32 16 buffer = Some 16
    ∧ take 4 (drop 36 buffer) = Z.of_N <$> lit "data".
Proof.
  intros Ha. eexists. split; [exact (wav_buffer_layout _ _ r Ha)|].
  repeat split.
Qed.

Lemma container_chunk_tags_witness :
  atob (lit "AAEC") = Some [0; 1; 2]%N
  ∧ ∃ buffer,
      wav_buffer (lit "AAEC") 24000 = Some buffer
      ∧ take 4 buffer = [82; 73; 70; 70]
      ∧ getUint32 16 buffer = Some 16.
Proof.
  assert (Ha : atob (lit "AAEC") = Some [0; 1; 2]%N)
    by (vm_compute; reflexivity).
  split; [exact Ha|].
  destruct (container_chunk_tags (lit "AAEC") [0; 1; 2]%N 24000 Ha)
    as (buffer & Hb & Hr & _ & Hf & _).
  exists buffer. split; [exact Hb|]. split; [exact Hr | exact Hf].
Defined.

Lemma b64_bytes_range (v : list N) : Forall (λ c, (c < 256)%N) (b64_bytes v).
Proof.
  assert (Hland : ∀ x, (N.land x 255 < 256)%N).
  { intros x. change 255%N with (N.ones 8). rewrite N.land_ones.
    apply N.mod_lt. discriminate. }
  revert v. fix IH 1. intros [|a [|b [|c [|d rest]]]]; cbn [b64_bytes];
    repeat constructor; try apply Hland. apply IH.
Qed.

Lemma atob_range (base64 binaryString : jsstring) :
  atob base64 = Some binaryString → Forall (λ c, (c < 256)%N) binaryString.
Proof.
  unfold atob. destruct (_ =? 1)%nat; [discriminate|].
  destruct (mapM b64_value _) as [v|]; [|discriminate].
  intros [= <-]. apply b64_bytes_range.
Qed.

Lemma pcm_bytes_id (binaryString : jsstring) :
  Forall (λ c, (c < 256)%N) binaryString →
  pcm_bytes binaryString = Z.of_N <$> binaryString.
Proof.
  intros H. unfold pcm_bytes. apply Forall_fmap_ext_1.
  eapply Forall_impl; [exact H|]. intros c Hc. cbn beta in *.
  apply Z.mod_small. lia.
Qed.

(** X11: every byte of a container lies in [0, 256), and the bytes after
    the header are exactly the character codes [atob] produced, in order
    and unchanged. *)
Theorem container_bytes (base64 binaryString : jsstring) r buffer :
  atob base64 = Some binaryString →
  wav_buffer base64 r = Some buffer →
  Forall (λ x, 0 <= x < 256) buffer
  ∧ drop 44 buffer = Z.of_N <$> binaryString.
Proof.
  intros Ha Hb. pose proof (wav_buffer_layout _ _ r Ha) as Hl.
  assert (buffer = wav_header (length binaryString) r ++ pcm_bytes binaryString)
    as -> by congruence.
  pose proof (atob_range _ _ Ha) as Hr. split.
  - apply Forall_app_2.
    + unfold wav_header, u32le, u16le. cbn [app].
      repeat (apply Forall_cons_2;
              [first [lia | apply Z.mod_pos_bound; lia]|]).
      apply Forall_nil_2.
    + unfold pcm_bytes. apply Forall_fmap, Forall_forall.
      intros c _. cbn. apply Z.mod_pos_bound. lia.
  - change 44%nat with (length (wav_header (length binaryString) r)).
    rewrite drop_app_length. by apply pcm_bytes_id.
Qed.
Lemma container_bytes_witness :
  atob (lit "AAEC") = Some [0; 1; 2]%N
  ∧ ∃ buffer,
      wav_buffer (lit "AAEC") 24000 = Some buffer
      ∧ Forall (λ x, 0 <= x < 256) buffer
      ∧ drop 44 buffer = [0; 1; 2].
Proof.
  assert (Ha : atob (lit "AAEC") = Some [0; 1; 2]%N)
    by (vm_compute; reflexivity).
  split; [exact Ha|].
  destruct (atob_wav_buffer (lit "AAEC") 24000 (ex_intro _ _ Ha))
    as [buffer Hb].
  exists buffer. split; [exact Hb|].
  exact (container_bytes (lit "AAEC") [0; 1; 2]%N 24000 buffer Ha Hb).
Defined.

End Container.

(** ** Sessions *)

Section Effects.
Implicit Types (s : AppState) (u : User) (voice : Voice) (t : jsstring).

(** What the checks change. *)
Lemma checks_effect rid u voice t s :
  let s' := generateSpeech_checks rid u voice t s in
  history s' = history s ∧ blobs s' = blobs s ∧ audioUrl s' = audioUrl s
  ∧ nextId s' = nextId s ∧ user s' = user s
  ∧ uploadedAudio s' = uploadedAudio s ∧ mode s' = mode s
  ∧ ((calls s' = calls s ∧ pending s' = pending s
      ∧ abortControllerRef s' = abortControllerRef s
      ∧ isGenerating s' = false ∧ is_Some (error s'))
     ∨ (blank t = false ∧ len t <= MAX_CHARS ∧ affordable u t = true
        ∧ calls s' = CallSynthesis t (voice_id voice) :: calls s
        ∧ pending s' = <[ rid := AwaitRace u voice t ]> (pending s)
        ∧ abortControllerRef s' = Some rid
        ∧ isGenerating s' = true ∧ error s' = None)).
Proof.
  cbv zeta. unfold generateSpeech_checks, affordable.
  destruct (blank t) eqn:Hb; [app_simpl; repeat split; left; repeat split; by eexists|].
  destruct (MAX_CHARS <? len t) eqn:Hl;
    [app_simpl; repeat split; left; repeat split; by eexists|].
  apply Z.ltb_ge in Hl.
  destruct (neq_Infinity (credits u) && num_ltb (credits u) (len t)) eqn:Ha;
    app_simpl; repeat split; [left | right]; repeat split; try done.
Qed.

(** What the settlement of the race changes. *)
Lemma resume_race_effect rid u voice t r rnd now s :
  let s' := resume_race rid u voice t r rnd now s in
  pending s' = delete rid (pending s) ∧ nextId s' = nextId s
  ∧ abortControllerRef s' = None ∧ isGenerating s' = false
  ∧ loadingStatus s' = None ∧ user s' = user s
  ∧ uploadedAudio s' = uploadedAudio s ∧ mode s' = mode s
  ∧ (calls s' = calls s
     ∨ (neq_Infinity (credits u) = true
        ∧ calls s' = CallDeduct (len t) :: calls s))
  ∧ ((history s' = history s ∧ blobs s' = blobs s
      ∧ audioUrl s' = audioUrl s)
     ∨ ∃ (payload : jsstring) buffer,
         r = Fulfilled (Some payload) ∧ payload ≠ []
         ∧ wav_buffer payload default_sampleRate = Some buffer
         ∧ blobs s' = blobs s ++ [mkBlob buffer (lit "audio/wav")]
         ∧ audioUrl s' = Some (length (blobs s))
         ∧ error s' = error s
         ∧ calls s'
           = (if neq_Infinity (credits u) then [CallDeduct (len t)] else [])
               ++ calls s
         ∧ history s'
           = {| item_id := rnd; item_text := truncated t;
                item_voice := voice_name voice;
                item_audioUrl := length (blobs s);
                item_timestamp := now |} :: history s).
Proof.
  cbv zeta. unfold resume_race, finally_block. app_simpl.
  set (s1 := setPending (delete rid (pending s)) s).
  assert (Hcatch : ∀ err s2,
            pending s2 = pending s1 → nextId s2 = nextId s → user s2 = user s →
            uploadedAudio s2 = uploadedAudio s → mode s2 = mode s →
            history s2 = history s → blobs s2 = blobs s →
            audioUrl s2 = audioUrl s →
            pending (catch_block err s2) = delete rid (pending s)
            ∧ nextId (catch_block err s2) = nextId s
            ∧ None = (None : option nat) ∧ false = false
            ∧ None = (None : option jsstring)
            ∧ user (catch_block err s2) = user s
            ∧ uploadedAudio (catch_block err s2) = uploadedAudio s
            ∧ mode (catch_block err s2) = mode s
            ∧ calls (catch_block err s2) = calls s2
            ∧ history (catch_block err s2) = history s
            ∧ blobs (catch_block err s2) = blobs s
            ∧ audioUrl (catch_block err s2) = audioUrl s).
  { intros err s2 ? ? ? ? ? ? ? ?. unfold catch_block.
    destruct (is_abort err), (is_quota err); app_simpl; repeat split; done. }
  destruct r as [[[|c payload]|]|err].
  - destruct (Hcatch (Error msg_empty_response) s1)
      as (? & ? & ? & ? & ? & ? & ? & ? & ? & ? & ? & ?); try reflexivity.
    cbn [on_response]. repeat split; try done; left; repeat split; try done.
  - unfold on_response.
    destruct (neq_Infinity (credits u)) eqn:Hn.
    + destruct (wav_buffer (c :: payload) default_sampleRate) as [buffer|] eqn:Hw.
      * rewrite (createWavUrl_Some _ _ _ _ Hw). app_simpl.
        repeat split; try done; [right; by split|].
        right. exists (c :: payload), buffer. repeat split; done.
      * unfold createWavUrl. rewrite Hw. cbn [mbind option_bind].
        destruct (Hcatch InvalidCharacterError
                    (issue (CallDeduct (len t)) s1))
          as (? & ? & ? & ? & ? & ? & ? & ? & Hc & ? & ? & ?); try reflexivity.
        repeat split; try done; [right; by split | left; by repeat split].
    + destruct (wav_buffer (c :: payload) default_sampleRate) as [buffer|] eqn:Hw.
      * rewrite (createWavUrl_Some _ _ _ _ Hw). app_simpl.
        repeat split; try done; [by left|].
        right. exists (c :: payload), buffer. repeat split; done.
      * unfold createWavUrl. rewrite Hw. cbn [mbind option_bind].
        destruct (Hcatch InvalidCharacterError s1)
          as (? & ? & ? & ? & ? & ? & ? & ? & Hc & ? & ? & ?); try reflexivity.
        repeat split; try done; [by left | left; by repeat split].
  - destruct (Hcatch (Error msg_empty_response) s1)
      as (? & ? & ? & ? & ? & ? & ? & ? & ? & ? & ? & ?); try reflexivity.
    cbn [on_response]. repeat split; try done; left; repeat split; try done.
  - destruct (Hcatch err s1)
      as (? & ? & ? & ? & ? & ? & ? & ? & ? & ? & ? & ?); try reflexivity.
    repeat split; try done; left; repeat split; try done.
Qed.

Lemma truncated_len t : len (truncated t) <= 83.
Proof.
  unfold truncated. destruct (80 <? len t) eqn:H.
  - unfold len. rewrite length_app, length_take.
    change (length (lit "...")) with 3%nat. lia.
  - apply Z.ltb_ge in H. lia.
Qed.

(** A state with the same requests, calls and media is as good. *)
Lemma session_ok_same s s' :
  pending s' = pending s → nextId s' = nextId s →
  abortControllerRef s' = abortControllerRef s → calls s' = calls s →
  history s' = history s → blobs s' = blobs s → audioUrl s' = audioUrl s →
  session_ok s → session_ok s'.
Proof.
  unfold session_ok, well_numbered, tracked, requests_ok, calls_ok, history_ok.
  intros -> -> -> -> -> -> ->. done.
Qed.

Lemma history_ok_grow s s' item blob :
  history s' = item :: history s →
  blobs s' = blobs s ++ [blob] →
  audioUrl s' = Some (length (blobs s)) →
  item_audioUrl item = length (blobs s) →
  len (item_text item) <= 83 →
  history_ok s → history_ok s'.
Proof.
  unfold history_ok. intros -> -> -> Hi Hl [Hh Ha]. split.
  - apply Forall_cons_2.
    + split; [done|]. rewrite Hi, lookup_app_r, Nat.sub_diag by lia.
      by eexists.
    + eapply Forall_impl; [exact Hh|]. intros it [? [b Hb]].
      split; [done|]. exists b. by apply lookup_app_l_Some.
  - intros url [= <-]. rewrite lookup_app_r, Nat.sub_diag by lia. by eexists.
Qed.

Ltac split_ok := split; [|split; [|split; [|split]]].

Lemma checks_ok rid u voice t s :
  (rid < nextId s)%nat → session_ok s →
  session_ok (generateSpeech_checks rid u voice t s).
Proof.
  intros Hlt (W & T & R & C & H).
  destruct (checks_effect rid u voice t s)
    as (Hh & Hb & Ha & Hn & _ & _ & _ & Hcase).
  destruct Hcase as [(Hc & Hp & Hr & _) | (Hbl & Hl & Haf & Hc & Hp & Hr & _)].
  - by apply (session_ok_same s).
  - split_ok.
    + intros r Hge. rewrite Hp, Hn in *. rewrite lookup_insert_ne by lia.
      by apply W.
    + intros r. rewrite Hr, Hp. intros [= <-]. rewrite lookup_insert_eq.
      by eexists _, _, _.
    + intros r u' v' t'. rewrite Hp.
      destruct (decide (r = rid)) as [->|Hne].
      * rewrite lookup_insert_eq. intros [= <- <- <-].
        split; [|done]. split; [by apply nonblank_len | done].
      * rewrite lookup_insert_ne by done. apply R.
    + unfold calls_ok. rewrite Hc. by apply Forall_cons_2.
    + unfold history_ok. by rewrite Hh, Hb, Ha.
Qed.

Lemma resume_race_ok rid u voice t r rnd now s :
  pending s !! rid = Some (AwaitRace u voice t) →
  session_ok s → session_ok (resume_race rid u voice t r rnd now s).
Proof.
  intros Hp (W & T & R & C & H).
  destruct (resume_race_effect rid u voice t r rnd now s)
    as (Hpe & Hn & Hr & _ & _ & _ & _ & _ & Hc & Hm).
  destruct (R _ _ _ _ Hp) as [Hlen _].
  split; [|split; [|split; [|split]]].
  - intros r0 Hge. rewrite Hpe, Hn in *.
    destruct (decide (rid = r0)) as [->|];
      [apply lookup_delete_eq | rewrite lookup_delete_ne by done; by apply W].
  - intros r0. by rewrite Hr.
  - intros r0 u' v' t'. rewrite Hpe. intros H0.
    apply lookup_delete_Some in H0 as [_ H0]. by apply (R r0 u' v' t').
  - unfold calls_ok. destruct Hc as [-> | [_ ->]]; [done|].
    by apply Forall_cons_2.
  - destruct Hm as [(Hh & Hb & Ha) | (payload & buffer & _ & _ & _ & Hb & Ha & _ & _ & Hh)].
    + unfold history_ok. by rewrite Hh, Hb, Ha.
    + exact (history_ok_grow s _ _ _ Hh Hb Ha eq_refl (truncated_len t) H).
Qed.

Lemma handleCancel_ok s : session_ok s → session_ok (handleCancel s).
Proof.
  intros Hok. unfold handleCancel.
  destruct (abortControllerRef s) as [rid|] eqn:Hr; [|done].
  assert (Hs' : session_ok (setLoadingStatus None (setIsGenerating false
                              (setAbortControllerRef None s)))).
  { destruct Hok as (W & T & R & C & H). split_ok; done. }
  destruct (pending s !! rid) as [[u voice|u voice t]|] eqn:Hp; try done.
  by apply resume_race_ok.
Qed.

Lemma resume_text_ok rid u voice r s :
  pending s !! rid = Some (AwaitText u voice) →
  session_ok s → session_ok (resume_text rid u voice r s).
Proof.
  intros Hp Hok.
  assert (Hlt : (rid < nextId s)%nat).
  { destruct Hok as (W & _).
    destruct (decide (rid < nextId s)%nat) as [|Hn]; [done|].
    rewrite W in Hp by lia. done. }
  assert (Hd : session_ok (setPending (delete rid (pending s)) s)).
  { destruct Hok as (W & T & R & C & H). split_ok; [| | |done|done].
    - intros r0 Hge. app_simpl.
      destruct (decide (rid = r0)) as [->|];
        [apply lookup_delete_eq | rewrite lookup_delete_ne by done; by apply W].
    - intros r0 Hr0. app_simpl. destruct (T r0 Hr0) as (u' & v' & t' & H0).
      exists u', v', t'. rewrite lookup_delete_ne; [done|]. congruence.
    - intros r0 u' v' t'. app_simpl. intros H0.
      apply lookup_delete_Some in H0 as [_ H0]. by apply (R r0 u' v' t'). }
  unfold resume_text.
  destruct r as [err|reply].
  - by apply (session_ok_same (setPending (delete rid (pending s)) s)).
  - destruct (blank (default [] reply)).
    + by apply (session_ok_same (setPending (delete rid (pending s)) s)).
    + apply checks_ok; [done|].
      by apply (session_ok_same (setPending (delete rid (pending s)) s)).
Qed.

Lemma generateSpeech_ok s : session_ok s → session_ok (generateSpeech s).
Proof.
  intros Hok. unfold generateSpeech, handleLogin.
  destruct (user s) as [u|].
  - destruct (decide (mode s ≠ tts)).
    + destruct (uploadedAudio s) as [audio|].
      * destruct Hok as (W & T & R & C & H). split_ok; [| | | |done].
        -- intros r0. app_simpl. intros Hge.
           rewrite lookup_insert_ne by lia. apply W. lia.
        -- intros r0 Hr0. app_simpl. destruct (T r0 Hr0) as (u' & v' & t' & H0).
           exists u', v', t'. rewrite lookup_insert_ne; [done|].
           intros <-. rewrite W in H0 by lia. done.
        -- intros r0 u' v' t'. app_simpl.
           destruct (decide (r0 = nextId s)) as [->|Hne].
           ++ rewrite lookup_insert_eq. discriminate.
           ++ rewrite lookup_insert_ne by done. apply R.
        -- unfold calls_ok. app_simpl. by apply Forall_cons_2.
      * by apply (session_ok_same s).
    + apply checks_ok; [app_simpl; lia|].
      destruct Hok as (W & T & R & C & H). split_ok; try done.
      intros r0. app_simpl. intros Hge. apply W. lia.
  - destruct Hok as (W & T & R & C & H). split_ok; try done.
    unfold calls_ok. app_simpl. by apply Forall_cons_2.
Qed.

Lemma step_ok e s : session_ok s → session_ok (step e s).
Proof.
  intros Hok. destruct e; cbn [step].
  - by apply generateSpeech_ok.
  - by apply handleCancel_ok.
  - by apply (session_ok_same s).
  - by apply (session_ok_same s).
  - unfold handleFileUpload. destruct files0 as [f|]; [|done].
    destruct (_ <? _); by apply (session_ok_same s).
  - by apply (session_ok_same s).
  - destruct (pending s !! rid) as [[u voice|u voice t]|] eqn:Hp; try done.
    by apply resume_text_ok.
  - destruct (pending s !! rid) as [[u voice|u voice t]|] eqn:Hp; try done.
    by apply resume_race_ok.
  - by apply (session_ok_same s).
Qed.

Lemma history_ok_more_blobs s s' blob :
  history s' = history s → blobs s' = blobs s ++ [blob] →
  audioUrl s' = audioUrl s → history_ok s → history_ok s'.
Proof.
  unfold history_ok. intros -> -> -> [Hh Ha]. split.
  - eapply Forall_impl; [exact Hh|]. intros it [? [b Hb]].
    split; [done|]. exists b. by apply lookup_app_l_Some.
  - intros url Hu. destruct (Ha url Hu) as [b Hb].
    exists b. by apply lookup_app_l_Some.
Qed.

Lemma playVoicePreview_ok v s : session_ok s → session_ok (playVoicePreview v s).
Proof.
  intros Hok. unfold playVoicePreview.
  destruct (decide (previewingVoice s = Some (voice_id v))); [done|].
  destruct Hok as (W & T & R & C & H). split_ok; try done.
  unfold calls_ok. app_simpl. by apply Forall_cons_2.
Qed.

Lemma preview_settled_ok r s : session_ok s → session_ok (preview_settled r s).
Proof.
  intros Hok. unfold preview_settled.
  destruct r as [[[|c payload]|]|err]; try done.
  unfold createWavUrl, createObjectURL.
  destruct (wav_buffer (c :: payload) default_sampleRate) as [buffer|];
    cbn [mbind option_bind]; [|done].
  destruct Hok as (W & T & R & C & H). split_ok; try done.
  by apply (history_ok_more_blobs s _
              {| blob_bytes := buffer; blob_type := lit "audio/wav" |}).
Qed.

Lemma session_step_ok e s : session_ok s → session_ok (session_step e s).
Proof.
  intros Hok. destruct e; cbn [session_step];
    try by apply (session_ok_same s).
  - by apply step_ok.
  - destruct Hok as (W & T & R & C & H). split_ok; try done.
    split; [apply Forall_nil_2 | apply H].
  - destruct resolved; [|done].
    destruct Hok as (W & T & R & C & H). split_ok; done.
  - by apply playVoicePreview_ok.
  - by apply preview_settled_ok.
  - destruct Hok as (W & T & R & C & H). split_ok; try done.
    unfold calls_ok, handleLogin. app_simpl. by apply Forall_cons_2.
Qed.

Lemma session_ok_run es s : session_ok s → session_ok (session es s).
Proof.
  revert s. induction es as [|e es IH]; intros s Hok; [done|].
  cbn [session foldl]. by apply IH, session_step_ok.
Qed.

Lemma session_ok_initial : session_ok initial.
Proof.
  split_ok.
  - done.
  - intros r H. discriminate.
  - intros r u v t H.
    change (pending initial) with (∅ : gmap nat Pending) in H.
    by rewrite lookup_empty in H.
  - apply Forall_nil_2.
  - split; [apply Forall_nil_2 | intros url H; discriminate].
Qed.

(** X12: in every state a session reaches, every synthesis call that was
    issued carries a text that is not blank and has at most 20000 code
    units, and every deduct call asks for at least 1 and at most 20000
    credits. *)
Theorem calls_within_ceiling (es : list SessionEvent) :
  calls_ok (session es initial).
Proof. apply (session_ok_run es initial session_ok_initial). Qed.

(** X13: in every state a session reaches, every history entry has a text
    of at most 83 code units (80 and the dots) and a URL that still names a
    registered blob, and so does the source of the player: no handle is
    ever left dangling. *)
Theorem history_entries_valid (es : list SessionEvent) :
  history_ok (session es initial).
Proof. apply (session_ok_run es initial session_ok_initial). Qed.

(** X14: in every state a session reaches in which no request is at the
    race (in particular while the transcription or translation call of a
    request is still running), a click on Stop changes nothing. *)
Theorem stop_without_race (es : list SessionEvent) :
  (∀ (rid : nat) u voice t,
     pending (session es initial) !! rid ≠ Some (AwaitRace u voice t)) →
  step Click_cancel (session es initial) = session es initial.
Proof.
  intros Hno. destruct (session_ok_run es initial session_ok_initial)
    as (_ & T & _).
  cbn [step]. unfold handleCancel.
  destruct (abortControllerRef (session es initial)) as [rid|] eqn:Hr; [|done].
  destruct (T rid Hr) as (u & v & t & Hp). by destruct (Hno rid u v t).
Qed.

Lemma stop_without_race_witness :
  pending (session example_composing_events initial)
  = {[ 0%nat := AwaitText example_user (selectedVoice initial) ]}
  ∧ isGenerating (session example_composing_events initial) = true
  ∧ step Click_cancel (session example_composing_events initial)
    = session example_composing_events initial.
Proof.
  assert (Hp : pending (session example_composing_events initial)
               = {[ 0%nat := AwaitText example_user (selectedVoice initial) ]})
    by (vm_compute; reflexivity).
  split; [exact Hp|]. split; [vm_compute; reflexivity|].
  apply (stop_without_race example_composing_events).
  intros rid u voice t. rewrite Hp.
  destruct (decide (rid = 0%nat)) as [->|Hne].
  - rewrite lookup_singleton_eq. discriminate.
  - rewrite lookup_singleton_ne by done. discriminate.
Defined.

Lemma session_step_keeps_settled e s (rid : nat) :
  (rid < nextId s)%nat → pending s !! rid = None →
  (rid < nextId (session_step e s))%nat
  ∧ pending (session_step e s) !! rid = None.
Proof.
  intros Hlt Hnone. destruct e; cbn [session_step]; try (split; assumption).
  - by apply step_keeps_settled.
  - destruct resolved; split; assumption.
  - unfold playVoicePreview.
    destruct (decide (previewingVoice s = Some (voice_id v)));
      split; assumption.
  - unfold preview_settled. destruct r as [[[|c payload]|]|err];
      try (split; assumption).
    destruct (createWavUrl _ _ _) as [[url blobs']|]; split; assumption.
Qed.

Lemma session_keeps_settled es s (rid : nat) :
  (rid < nextId s)%nat → pending s !! rid = None →
  (rid < nextId (session es s))%nat ∧ pending (session es s) !! rid = None.
Proof.
  revert s. induction es as [|e es IH]; intros s Hlt Hnone; [done|].
  cbn [session foldl].
  destruct (session_step_keeps_settled e s rid Hlt Hnone). by apply IH.
Qed.

(** X15: the result of a synthesis call is applied at most once: after the
    race of a request has settled, whatever happens next, a further
    settlement for the same request changes nothing (no second history
    entry, no second deduct). *)
Theorem settlement_applies_once (es0 es : list SessionEvent) (rid : nat)
    u voice t r rnd now r' rnd' now' :
  pending (session es0 initial) !! rid = Some (AwaitRace u voice t) →
  let s1 := session es (step (Synthesis_settled rid r rnd now)
                          (session es0 initial)) in
  step (Synthesis_settled rid r' rnd' now') s1 = s1.
Proof.
  intros Hp s1. set (s := session es0 initial) in *.
  destruct (session_ok_run es0 initial session_ok_initial) as (W & _).
  fold s in W.
  assert (Hlt : (rid < nextId s)%nat).
  { destruct (decide (rid < nextId s)%nat) as [|Hn]; [done|].
    rewrite W in Hp by lia. done. }
  destruct (resume_race_effect rid u voice t r rnd now s)
    as (Hpe & Hn & _).
  destruct (session_keeps_settled es
              (step (Synthesis_settled rid r rnd now) s) rid) as [_ Hnone].
  - cbn [step]. rewrite Hp, Hn. done.
  - cbn [step]. rewrite Hp, Hpe. apply lookup_delete_eq.
  - assert (Hgen : ∀ x, pending x !! rid = None →
                        step (Synthesis_settled rid r' rnd' now') x = x)
      by (intros x Hx; cbn [step]; by rewrite Hx).
    apply Hgen, Hnone.
Qed.

Lemma settlement_applies_once_witness :
  pending (session example_requesting_events initial) !! 0%nat
  = Some (AwaitRace example_user (selectedVoice initial) (lit "Hello world"))
  ∧ step (Synthesis_settled 0 (Fulfilled (Some (lit "AAEC")))
            (lit "k3j9x0q1z") 2)
      (session [Click_clear]
         (step (Synthesis_settled 0 (Fulfilled (Some (lit "AAEC")))
                  (lit "k3j9x0q1z") 1)
            (session example_requesting_events initial)))
    = session [Click_clear]
        (step (Synthesis_settled 0 (Fulfilled (Some (lit "AAEC")))
                 (lit "k3j9x0q1z") 1)
           (session example_requesting_events initial)).
Proof.
  assert (Hp : pending (session example_requesting_events initial) !! 0%nat
               = Some (AwaitRace example_user (selectedVoice initial)
                         (lit "Hello world")))
    by (vm_compute; reflexivity).
  split; [exact Hp|].
  apply (settlement_applies_once example_requesting_events [Click_clear] 0
           example_user (selectedVoice initial) (lit "Hello world")).
  exact Hp.
Defined.

Lemma startsWith_app (n b : jsstring) : startsWith (n ++ b) n = true.
Proof.
  induction n as [|c n IH]; cbn; [by destruct b|].
  by rewrite N.eqb_refl, IH.
Qed.

Lemma includes_app (a n b : jsstring) : includes (a ++ n ++ b) n = true.
Proof.
  induction a as [|c a IH]; cbn [app].
  - destruct (n ++ b) eqn:E; cbn [includes];
      rewrite <- E, startsWith_app; reflexivity.
  - cbn [includes]. rewrite IH. apply orb_true_r.
Qed.

Lemma is_quota_marker err (marker a b : jsstring) :
  marker ∈ quota_markers → message err = Some (a ++ marker ++ b) →
  is_quota err = true.
Proof.
  intros Hm He. unfold is_quota. rewrite He.
  pose proof (includes_app a marker b) as Hi.
  unfold quota_markers in Hm. rewrite !elem_of_cons in Hm.
  destruct (a ++ marker ++ b) as [|x l] eqn:E.
  - destruct Hm as [-> | [-> | [-> | Hm]]];
      [by destruct a.. | by apply elem_of_nil in Hm].
  - destruct Hm as [-> | [-> | [-> | Hm]]];
      [rewrite Hi; by rewrite ?orb_true_r.. | by apply elem_of_nil in Hm].
Qed.

(** X16: when the synthesis call of a request fails, nothing is charged and
    nothing is recorded, and the pipeline is at rest again. A response
    without a payload sets the empty-response message. A rejection that the
    abort test recognises leaves the error as it was; otherwise a message
    that contains [429], [RESOURCE_EXHAUSTED] or [quota] anywhere sets the
    quota message, and any other non-empty message is shown as it is. *)
Theorem settlement_failures s (rid : nat) u voice t rnd now :
  pending s !! rid = Some (AwaitRace u voice t) →
  (∀ a, a = None ∨ a = Some [] →
     let s' := step (Synthesis_settled rid (Fulfilled a) rnd now) s in
     error s' = Some msg_empty_response
     ∧ history s' = history s ∧ calls s' = calls s ∧ blobs s' = blobs s
     ∧ idle s' ∧ pending s' !! rid = None)
  ∧ (∀ err,
       let s' := step (Synthesis_settled rid (Rejected err) rnd now) s in
       history s' = history s ∧ calls s' = calls s ∧ blobs s' = blobs s
       ∧ idle s' ∧ pending s' !! rid = None
       ∧ (is_abort err = true → error s' = error s)
       ∧ (is_abort err = false →
          (∀ marker a b,
             marker ∈ quota_markers → message err = Some (a ++ marker ++ b) →
             error s' = Some msg_quota)
          ∧ (is_quota err = false →
             ∀ m, m ≠ [] → message err = Some m → error s' = Some m))).
Proof.
  intros Hp. split.
  - intros a Ha s'. subst s'. cbn [step]. rewrite Hp.
    unfold resume_race, finally_block, idle.
    destruct Ha as [-> | ->]; cbn [on_response];
      (replace (catch_block (Error msg_empty_response)
                  (setPending (delete rid (pending s)) s))
         with (setError (Some msg_empty_response)
                 (setPending (delete rid (pending s)) s))
         by reflexivity);
      app_simpl; rewrite lookup_delete_eq; repeat split.
  - intros err s'. subst s'. cbn [step]. rewrite Hp.
    unfold resume_race, finally_block, catch_block, idle.
    destruct (is_abort err) eqn:Hab.
    + app_simpl. rewrite lookup_delete_eq. repeat split; done.
    + destruct (is_quota err) eqn:Hq; app_simpl; rewrite lookup_delete_eq;
        (split; [done|]); (split; [done|]); (split; [done|]);
        (split; [done|]); (split; [done|]); (split; [done|]); intros _.
      * split; [done|]. discriminate.
      * split.
        -- intros marker a b Hm He.
           rewrite (is_quota_marker err marker a b Hm He) in Hq. discriminate.
        -- intros _ m Hm ->. by destruct m.
Qed.

Lemma settlement_failures_witness :
  error (step (Synthesis_settled 0
                 (Rejected (Error (lit "HTTP 429 Too Many Requests")))
                 [] 0) example_in_flight)
  = Some msg_quota
  ∧ history (step (Synthesis_settled 0
                     (Rejected (Error (lit "HTTP 429 Too Many Requests")))
                     [] 0) example_in_flight) = [].
Proof.
  destruct (settlement_failures example_in_flight 0 example_user
              (selectedVoice example_session) (lit "Hello world") [] 0
              example_in_flight_pending) as [_ H].
  destruct (H (Error (lit "HTTP 429 Too Many Requests")))
    as (Hh & _ & _ & _ & _ & _ & Hq).
  destruct (Hq eq_refl) as [Hm _].
  split; [|exact Hh].
  apply (Hm (lit "429") (lit "HTTP ") (lit " Too Many Requests"));
    [|reflexivity].
  apply list_elem_of_here.
Defined.

(** X17: a second click on Stop does nothing more than the first. *)
Theorem cancel_idempotent s :
  handleCancel (handleCancel s) = handleCancel s.
Proof.
  assert (Hnone : ∀ x, abortControllerRef x = None → handleCancel x = x)
    by (intros x Hx; unfold handleCancel; by rewrite Hx).
  apply Hnone. unfold handleCancel.
  destruct (abortControllerRef s) as [rid|] eqn:Hr; [|done].
  destruct (pending s !! rid) as [[u voice|u voice t]|]; reflexivity.
Qed.



Lemma passive_frame e s :
  passive e = true →
  pending (session_step e s) = pending s
  ∧ history (session_step e s) = history s
  ∧ calls (session_step e s) = calls s
  ∧ blobs (session_step e s) = blobs s
  ∧ user (session_step e s) = user s.
Proof.
  destruct e as [[]| | | | | | | | | | |]; try discriminate; intros _;
    cbn [session_step step]; try (repeat split; reflexivity).
  unfold handleFileUpload. destruct files0 as [f|]; [|repeat split].
  destruct (_ <? _); repeat split.
Qed.

Lemma passive_run_frame es s :
  Forall (λ e, passive e = true) es →
  pending (session es s) = pending s
  ∧ history (session es s) = history s
  ∧ calls (session es s) = calls s
  ∧ blobs (session es s) = blobs s
  ∧ user (session es s) = user s.
Proof.
  revert s. induction es as [|e es IH]; intros s Hes; [done|].
  apply Forall_cons_1 in Hes as [He Hes].
  change (session (e :: es) s) with (session es (session_step e s)).
  destruct (IH (session_step e s) Hes) as (-> & -> & -> & -> & ->).
  by apply passive_frame.
Qed.

Lemma settle_success s (rid : nat) u voice t (payload : jsstring) rnd now :
  pending s !! rid = Some (AwaitRace u voice t) →
  payload ≠ [] → is_Some (atob payload) →
  let s' := step (Synthesis_settled rid (Fulfilled (Some payload)) rnd now) s in
  history s'
  = {| item_id := rnd; item_text := truncated t;
       item_voice := voice_name voice; item_audioUrl := length (blobs s);
       item_timestamp := now |} :: history s
  ∧ calls s'
    = (if neq_Infinity (credits u) then [CallDeduct (len t)] else [])
        ++ calls s
  ∧ user s' = user s.
Proof.
  intros Hp Hne Hv s'. subst s'. cbn [step]. rewrite Hp.
  destruct (resume_race_effect rid u voice t (Fulfilled (Some payload))
              rnd now s)
    as (_ & _ & _ & _ & _ & Hu & _ & _ & _ & Hm).
  destruct Hm as [(Hh & Hb & _) | (p & buffer & [= <-] & _ & _ & _ & _ & _ & Hc & Hh)];
    [|done].
  exfalso. destruct (atob_wav_buffer payload default_sampleRate Hv)
    as [buffer Hw].
  revert Hb. unfold resume_race, finally_block, on_response.
  destruct payload as [|c p]; [done|].
  destruct (neq_Infinity (credits u));
    rewrite (createWavUrl_Some _ _ _ _ Hw); app_simpl;
    intros Hb; apply (f_equal length) in Hb;
    rewrite length_app in Hb; cbn in Hb; lia.
Qed.

(** X19: what a request records and charges is fixed when it starts:
    editing the text, switching the mode, the voice or the language, or
    uploading a file while the synthesis call is running changes neither
    the history entry (text and voice) nor the amount of the deduct. *)
Theorem edits_do_not_affect_request s (es : list SessionEvent) (rid : nat)
    u voice t (payload : jsstring) rnd now :
  pending s !! rid = Some (AwaitRace u voice t) →
  Forall (λ e, passive e = true) es →
  payload ≠ [] → is_Some (atob payload) →
  let s' := step (Synthesis_settled rid (Fulfilled (Some payload)) rnd now)
              (session es s) in
  ∃ url,
    history s'
    = {| item_id := rnd; item_text := truncated t;
         item_voice := voice_name voice; item_audioUrl := url;
         item_timestamp := now |} :: history s
    ∧ calls s'
      = (if neq_Infinity (credits u) then [CallDeduct (len t)] else [])
          ++ calls s.
Proof.
  intros Hp Hes Hne Hv s'.
  destruct (passive_run_frame es s Hes) as (Hpe & Hh & Hc & Hb & _).
  destruct (settle_success (session es s) rid u voice t payload rnd now)
    as (Hh' & Hc' & _); [by rewrite Hpe | done | done |].
  eexists. subst s'. rewrite Hh', Hc', Hh, Hc. done.
Qed.

Lemma edits_do_not_affect_request_witness :
  Forall (λ e, passive e = true)
    [Pipeline (Type_text (lit "Something else")); Pipeline (Click_mode dubbing)]
  ∧ lit "AAEC" ≠ [] ∧ is_Some (atob (lit "AAEC"))
  ∧ ∃ url,
      history
        (step (Synthesis_settled 0 (Fulfilled (Some (lit "AAEC")))
                 (lit "k3j9x0q1z") 1)
           (session [Pipeline (Type_text (lit "Something else"));
                     Pipeline (Click_mode dubbing)] example_in_flight))
      = [ {| item_id := lit "k3j9x0q1z"; item_text := lit "Hello world";
             item_voice := lit "VoxAI Frank (Friend Style)";
             item_audioUrl := url; item_timestamp := 1 |} ].
Proof.
  assert (Hes : Forall (λ e, passive e = true)
                  [Pipeline (Type_text (lit "Something else"));
                   Pipeline (Click_mode dubbing)])
    by (repeat constructor).
  assert (Hne : lit "AAEC" ≠ []) by discriminate.
  assert (Hv : is_Some (atob (lit "AAEC")))
    by (exists [0; 1; 2]%N; vm_compute; reflexivity).
  split; [exact Hes|]. split; [exact Hne|]. split; [exact Hv|].
  destruct (edits_do_not_affect_request example_in_flight _ 0 example_user
              (selectedVoice example_session) (lit "Hello world")
              (lit "AAEC") (lit "k3j9x0q1z") 1
              example_in_flight_pending Hes Hne Hv) as (url & Hh & _).
  exists url. exact Hh.
Defined.

(** X20: logging out clears the account, the history and the player but
    neither the registered blobs nor a request in flight: when its call
    later succeeds, the entry is added to the emptied history and the
    deduct for the account it captured is still issued. *)
Theorem logout_does_not_stop_request s (rid : nat) u voice t
    (payload : jsstring) rnd now :
  pending s !! rid = Some (AwaitRace u voice t) →
  payload ≠ [] → is_Some (atob payload) →
  let s1 := handleLogout true s in
  let s' := step (Synthesis_settled rid (Fulfilled (Some payload)) rnd now) s1 in
  user s1 = None ∧ history s1 = [] ∧ audioUrl s1 = None
  ∧ blobs s1 = blobs s ∧ pending s1 = pending s
  ∧ user s' = None
  ∧ history s'
    = [ {| item_id := rnd; item_text := truncated t;
           item_voice := voice_name voice;
           item_audioUrl := length (blobs s); item_timestamp := now |} ]
  ∧ calls s'
    = (if neq_Infinity (credits u) then [CallDeduct (len t)] else [])
        ++ calls s.
Proof.
  intros Hp Hne Hv s1 s'.
  destruct (settle_success s1 rid u voice t payload rnd now)
    as (Hh & Hc & Hu); [exact Hp | done | done |].
  subst s'. rewrite Hh, Hc, Hu. subst s1. repeat split.
Qed.

Lemma logout_does_not_stop_request_witness :
  lit "AAEC" ≠ [] ∧ is_Some (atob (lit "AAEC"))
  ∧ user (step (Synthesis_settled 0 (Fulfilled (Some (lit "AAEC")))
                  (lit "k3j9x0q1z") 1) (handleLogout true example_in_flight))
    = None
  ∧ calls (step (Synthesis_settled 0 (Fulfilled (Some (lit "AAEC")))
                   (lit "k3j9x0q1z") 1) (handleLogout true example_in_flight))
    = [CallDeduct 11; CallSynthesis (lit "Hello world") (lit "Puck")].
Proof.
  assert (Hne : lit "AAEC" ≠ []) by discriminate.
  assert (Hv : is_Some (atob (lit "AAEC")))
    by (exists [0; 1; 2]%N; vm_compute; reflexivity).
  split; [exact Hne|]. split; [exact Hv|].
  destruct (logout_does_not_stop_request example_in_flight 0 example_user
              (selectedVoice example_session) (lit "Hello world")
              (lit "AAEC") (lit "k3j9x0q1z") 1
              example_in_flight_pending Hne Hv)
    as (_ & _ & _ & _ & _ & Hu & _ & Hc).
  split; [exact Hu | exact Hc].
Defined.

(** X21: the size limit of an upload is 52428800 bytes: a file is handed to
    the reader exactly when it is no larger; a larger one sets the size
    message and leaves the clip uploaded before in place; a selection
    without a file changes nothing. *)
Theorem upload_size_limit s (files0 : option File) :
  match files0 with
  | None => handleFileUpload files0 s = (s, None)
  | Some f =>
      ((handleFileUpload files0 s).2 = Some f ↔ file_size f <= 52428800)
      ∧ (52428800 < file_size f →
         handleFileUpload files0 s
         = (setError (Some (lit "File size exceeds 50MB limit.")) s, None)
         ∧ uploadedAudio (step (File_chosen files0) s) = uploadedAudio s)
  end.
Proof.
  destruct files0 as [f|]; [|reflexivity]. unfold handleFileUpload.
  change (50 * 1024 * 1024) with 52428800.
  destruct (52428800 <? file_size f) eqn:H.
  - apply Z.ltb_lt in H. split; [split; [discriminate | lia]|].
    intros _. split; [reflexivity|]. cbn [step]. unfold handleFileUpload.
    change (50 * 1024 * 1024) with 52428800.
    by rewrite (proj2 (Z.ltb_lt _ _) H).
  - apply Z.ltb_ge in H. split; [split; [done | done]|]. lia.
Qed.

Lemma upload_size_limit_witness :
  52428800 < file_size example_big_file
  ∧ uploadedAudio (step (File_chosen (Some example_big_file)) example_dubbing)
    = uploadedAudio example_dubbing.
Proof.
  assert (H : 52428800 < file_size example_big_file)
    by (vm_compute; reflexivity).
  split; [exact H|].
  exact (proj2 (proj2 (upload_size_limit example_dubbing
                         (Some example_big_file)) H)).
Defined.

Lemma signed_out_step e s :
  sets_user e = false →
  user s = None → pending s = ∅ → history s = [] →
  Forall login_or_preview (calls s) →
  user (session_step e s) = None ∧ pending (session_step e s) = ∅
  ∧ history (session_step e s) = []
  ∧ Forall login_or_preview (calls (session_step e s)).
Proof.
  intros He Hu Hp Hh Hc.
  destruct e as [[]| | | | | | | | | | |]; try discriminate;
    cbn [session_step step];
    try (repeat split; (assumption || reflexivity)).
  - unfold generateSpeech. rewrite Hu. unfold handleLogin. app_simpl.
    repeat split; try (assumption || reflexivity).
    apply Forall_cons_2; [by left | exact Hc].
  - unfold handleCancel. destruct (abortControllerRef s) as [rid|];
      [|repeat split; (assumption || reflexivity)].
    rewrite Hp, lookup_empty. repeat split; (assumption || reflexivity).
  - unfold handleFileUpload. destruct files0 as [f|];
      [|repeat split; (assumption || reflexivity)].
    destruct (_ <? _); repeat split; (assumption || reflexivity).
  - rewrite Hp, lookup_empty. repeat split; (assumption || reflexivity).
  - rewrite Hp, lookup_empty. repeat split; (assumption || reflexivity).
  - destruct resolved; repeat split; (assumption || reflexivity).
  - unfold playVoicePreview.
    destruct (decide (previewingVoice s = Some (voice_id v)));
      [repeat split; (assumption || reflexivity)|].
    app_simpl. repeat split; try (assumption || reflexivity).
    apply Forall_cons_2; [right; by eexists | exact Hc].
  - unfold preview_settled. destruct r as [[[|c payload]|]|err];
      try (repeat split; (assumption || reflexivity)).
    destruct (createWavUrl _ _ _) as [[url blobs']|];
      repeat split; (assumption || reflexivity).
  - unfold handleLogin. app_simpl.
    repeat split; try (assumption || reflexivity).
    apply Forall_cons_2; [by left | exact Hc].
Qed.

(** X22: while nobody is signed in, whatever else happens, no
    transcription, translation, synthesis or deduct call is issued. Of the
    calls the handlers issue, those that go out are requests for the login
    URL (what a click on the generate button does then) and previews of a
    voice on the fixed sentence, which [playVoicePreview] issues without
    looking at the account; no request is started and the history stays
    empty. *)
Theorem signed_out_calls (es : list SessionEvent) :
  Forall (λ e, sets_user e = false) es →
  user (session es initial) = None
  ∧ history (session es initial) = []
  ∧ pending (session es initial) = ∅
  ∧ Forall login_or_preview (calls (session es initial)).
Proof.
  intros Hes.
  assert (Hgen : ∀ s, user s = None → pending s = ∅ → history s = [] →
            Forall login_or_preview (calls s) →
            user (session es s) = None ∧ history (session es s) = []
            ∧ pending (session es s) = ∅
            ∧ Forall login_or_preview (calls (session es s))).
  { induction es as [|e es IH]; intros s Hu Hp Hh Hc; [done|].
    apply Forall_cons_1 in Hes as [He Hes].
    change (session (e :: es) s) with (session es (session_step e s)).
    destruct (signed_out_step e s He Hu Hp Hh Hc) as (Hu' & Hp' & Hh' & Hc').
    exact (IH Hes _ Hu' Hp' Hh' Hc'). }
  apply Hgen; done.
Qed.

Lemma signed_out_calls_witness :
  Forall (λ e, sets_user e = false)
    [Pipeline (Type_text (lit "Hello world")); Pipeline Click_generate;
     Click_preview (selectedVoice initial)]
  ∧ Forall login_or_preview
      (calls (session [Pipeline (Type_text (lit "Hello world"));
                       Pipeline Click_generate;
                       Click_preview (selectedVoice initial)] initial))
  ∧ calls (session [Pipeline (Type_text (lit "Hello world"));
                    Pipeline Click_generate;
                    Click_preview (selectedVoice initial)] initial)
    = [CallPreview (lit "Puck"); CallAuthUrl].
Proof.
  assert (H : Forall (λ e, sets_user e = false)
                [Pipeline (Type_text (lit "Hello world"));
                 Pipeline Click_generate;
                 Click_preview (selectedVoice initial)])
    by (repeat constructor).
  split; [exact H|].
  split; [exact (proj2 (proj2 (proj2 (signed_out_calls _ H))))|].
  vm_compute. reflexivity.
Defined.

(** X23: client and service together: when the cached account is the one
    the ledger holds, with an integer balance [b] of at most 2^53 (up to
    where a double holds every integer), a text that passes the checks and
    is synthesised leads to exactly one deduct call, for the length of the
    text, and applying it leaves the ledger at [b] minus that length, which
    is not negative and below [b]. *)
Theorem charge_within_balance s (rid : nat) u voice t
    (payload rnd : jsstring) (now : Z) (usersDb : gmap jsstring User) (b : Z) :
  email u ≠ [] → usersDb !! email u = Some u → credits u = Int b →
  b <= 2 ^ 53 →
  blank t = false → len t <= MAX_CHARS → affordable u t = true →
  payload ≠ [] → is_Some (atob payload) →
  let s' := step (Synthesis_settled rid (Fulfilled (Some payload)) rnd now)
              (generateSpeech_checks rid u voice t s) in
  calls s'
  = CallDeduct (len t) :: CallSynthesis t (voice_id voice) :: calls s
  ∧ Server.balance (email u)
      (Server.post_deduct (Some (email u)) (len t) usersDb).2
    = Some (Int (b - len t))
  ∧ 0 <= b - len t < b.
Proof.
  intros Hne Hdb Hc Hsafe Hb Hl Ha Hp Hv s'.
  pose proof (checks_pass rid u voice t s Hb Hl Ha) as Hpass.
  destruct (settle_success (generateSpeech_checks rid u voice t s) rid u voice
              t payload rnd now) as (_ & Hcalls & _); [|done|done|].
  { rewrite Hpass. app_simpl. apply lookup_insert_eq. }
  pose proof (nonblank_len t Hb) as Hpos.
  assert (Hcover : len t <= b).
  { unfold affordable in Ha. rewrite Hc in Ha. cbn in Ha.
    by apply negb_true_iff, Z.ltb_ge in Ha. }
  unfold MAX_CHARS in Hl.
  subst s'. rewrite Hcalls, Hpass, Hc. app_simpl. split; [done|].
  rewrite (post_deduct_finite _ _ _ b (len t) Hne Hdb Hc) by lia.
  cbn [snd]. split; [apply balance_insert|]. lia.
Qed.

Lemma charge_within_balance_witness :
  email example_user ≠ []
  ∧ example_db !! email example_user = Some example_user
  ∧ 20000 <= 2 ^ 53
  ∧ affordable example_user (lit "Hello world") = true
  ∧ Server.balance (email example_user)
      (Server.post_deduct (Some (email example_user))
         (len (lit "Hello world")) example_db).2
    = Some (Int (20000 - len (lit "Hello world"))).
Proof.
  assert (Hv : is_Some (atob (lit "AAEC")))
    by (exists [0; 1; 2]%N; vm_compute; reflexivity).
  assert (Hb : blank (lit "Hello world") = false)
    by (vm_compute; reflexivity).
  assert (Hl : len (lit "Hello world") <= MAX_CHARS)
    by (vm_compute; discriminate).
  assert (Ha : affordable example_user (lit "Hello world") = true)
    by (vm_compute; reflexivity).
  assert (Hs : 20000 <= 2 ^ 53) by (vm_compute; discriminate).
  assert (Hne : lit "AAEC" ≠ []) by discriminate.
  split; [exact example_email_nonempty|].
  split; [exact example_db_lookup|]. split; [exact Hs|]. split; [exact Ha|].
  exact (proj1 (proj2 (charge_within_balance initial 0 example_user
                         (selectedVoice initial) (lit "Hello world")
                         (lit "AAEC") (lit "k3j9x0q1z") 1 example_db 20000
                         example_email_nonempty example_db_lookup eq_refl Hs
                         Hb Hl Ha Hne Hv))).
Defined.

End Effects.

Section VoiceSearch.
Variable toLowerCase : jsstring → jsstring.

Lemma includes_nil (x : jsstring) : includes x [] = true.
Proof. by destruct x. Qed.

Lemma includes_refl (x : jsstring) : includes x x = true.
Proof.
  pose proof (includes_app [] x []) as H. by rewrite app_nil_r in H.
Qed.

Lemma filter_all {A} (P : A → Prop) `{!∀ x, Decision (P x)} (l : list A) :
  Forall P l → filter P l = l.
Proof.
  induction 1 as [|x l Hx _ IH]; [done|].
  by rewrite filter_cons_True, IH.
Qed.

(** X24: the voice search, for any [toLowerCase]: an empty query lists the
    whole catalogue (given that the lower case of the empty string is
    empty); a voice is always found by its full name and by each of its
    tags; and the result is the catalogue with entries left out, in
    catalogue order. *)
Theorem voice_search :
  (toLowerCase [] = [] → filteredVoices toLowerCase [] = VOICES)
  ∧ (∀ v, v ∈ VOICES → v ∈ filteredVoices toLowerCase (voice_name v))
  ∧ (∀ v tag, v ∈ VOICES → tag ∈ voice_tags v →
       v ∈ filteredVoices toLowerCase tag)
  ∧ (∀ q, filteredVoices toLowerCase q `sublist_of` VOICES).
Proof.
  unfold filteredVoices. split; [|split; [|split]].
  - intros Hl. apply filter_all.
    apply Forall_forall. intros v _. cbn beta.
    by rewrite Hl, includes_nil.
  - intros v Hv. apply list_elem_of_filter. split; [|done].
    by rewrite includes_refl.
  - intros v tag Hv Ht. apply list_elem_of_filter. split; [|done].
    apply orb_true_iff. right. apply existsb_exists. exists tag.
    split; [by apply list_elem_of_In | apply includes_refl].
  - intros q. apply sublist_filter.
Qed.
End VoiceSearch.

Lemma voice_search_witness :
  ascii_toLowerCase [] = []
  ∧ filteredVoices ascii_toLowerCase [] = VOICES.
Proof.
  split; [reflexivity|].
  exact (proj1 (voice_search ascii_toLowerCase) eq_refl).
Defined.
